(** * Confluence space export: the thread-pool and the asyncio exporter

    A shallow embedding of [export_confluence_html.py] (class
    [ConfluenceExporter]) and [export_confluence_html_async.py] (class
    [ConfluenceAsyncExporter]): the cache fingerprint, the file-name
    sanitiser, the per-space export task of both scripts, the selection of
    the spaces to export, the result loops of [export_all_spaces] and the
    exit status of [main].

    Conventions.
    - The name of a space and every path is a [str], the list of the code
      points of a Python string; [isalnum] is [str.isalnum] of
      CPython 3.11 (Unicode 14.0.0).  Keys, the [type] and [status] of a
      space, URLs and fingerprints are Rocq strings, whose characters are
      the code points U+0000..U+00FF.
    - [self.output_dir] is a [pathlib.Path]; the scripts only join a file
      name to it and take [str] of the result, so it is modelled by that
      function, from the name to the text of the path.
    - [time.time()] is an exact rational number of seconds.
    - The remote service, the clock, the HTTP replies and the outcome of
      writing a file are an explicit [remote] record; network calls and
      back-off sleeps are recorded in an event log, so that "no network
      call" and "waited 10 then 20 seconds" are statements about the log.
      What writing a file results in depends on its path only.
    - Exceptions are values of [res]; a function that the source wraps in
      [try/except Exception] returns [Ok] on every path.
    - A task is given twice: as a function that runs it from start to
      end, and as a coroutine with the suspension points of the source,
      for the runs in which two tasks take turns on the one exporter; the
      two are proved to agree when the task runs alone. *)

From Stdlib Require Import Ascii String QArith Qround.
From stdpp Require Import gmap strings pretty list.

Open Scope Z_scope.

(** ** Python strings *)

Abbreviation str := (list N).

(** The [str] of a Rocq string: the code points of its characters. *)
Definition of_string (s : string) : str := map N_of_ascii (list_ascii_of_string s).

Definition between (lo hi n : N) : bool := ((lo <=? n) && (n <=? hi))%N.

(** The code points [c] with [chr(c).isalnum()], as closed ranges: the
    letters and the decimal, digit and numeric characters of Unicode
    14.0.0. *)
Definition alnum_ranges : list (N * N) :=
   ([(48, 57); (65, 90); (97, 122); (170, 170); (178, 179); (181, 181);
   (185, 186); (188, 190); (192, 214); (216, 246); (248, 705); (710, 721);
   (736, 740); (748, 748); (750, 750); (880, 884); (886, 887); (890, 893);
   (895, 895); (902, 902); (904, 906); (908, 908); (910, 929); (931, 1013);
   (1015, 1153); (1162, 1327); (1329, 1366); (1369, 1369); (1376, 1416);
   (1488, 1514); (1519, 1522); (1568, 1610); (1632, 1641); (1646, 1647);
   (1649, 1747); (1749, 1749); (1765, 1766); (1774, 1788); (1791, 1791);
   (1808, 1808); (1810, 1839); (1869, 1957); (1969, 1969); (1984, 2026);
   (2036, 2037); (2042, 2042); (2048, 2069); (2074, 2074); (2084, 2084);
   (2088, 2088); (2112, 2136); (2144, 2154); (2160, 2183); (2185, 2190);
   (2208, 2249); (2308, 2361); (2365, 2365); (2384, 2384); (2392, 2401);
   (2406, 2415); (2417, 2432); (2437, 2444); (2447, 2448); (2451, 2472);
   (2474, 2480); (2482, 2482); (2486, 2489); (2493, 2493); (2510, 2510);
   (2524, 2525); (2527, 2529); (2534, 2545); (2548, 2553); (2556, 2556);
   (2565, 2570); (2575, 2576); (2579, 2600); (2602, 2608); (2610, 2611);
   (2613, 2614); (2616, 2617); (2649, 2652); (2654, 2654); (2662, 2671);
   (2674, 2676); (2693, 2701); (2703, 2705); (2707, 2728); (2730, 2736);
   (2738, 2739); (2741, 2745); (2749, 2749); (2768, 2768); (2784, 2785);
   (2790, 2799); (2809, 2809); (2821, 2828); (2831, 2832); (2835, 2856);
   (2858, 2864); (2866, 2867); (2869, 2873); (2877, 2877); (2908, 2909);
   (2911, 2913); (2918, 2927); (2929, 2935); (2947, 2947); (2949, 2954);
   (2958, 2960); (2962, 2965); (2969, 2970); (2972, 2972); (2974, 2975);
   (2979, 2980); (2984, 2986); (2990, 3001); (3024, 3024); (3046, 3058);
   (3077, 3084); (3086, 3088); (3090, 3112); (3114, 3129); (3133, 3133);
   (3160, 3162); (3165, 3165); (3168, 3169); (3174, 3183); (3192, 3198);
   (3200, 3200); (3205, 3212); (3214, 3216); (3218, 3240); (3242, 3251);
   (3253, 3257); (3261, 3261); (3293, 3294); (3296, 3297); (3302, 3311);
   (3313, 3314); (3332, 3340); (3342, 3344); (3346, 3386); (3389, 3389);
   (3406, 3406); (3412, 3414); (3416, 3425); (3430, 3448); (3450, 3455);
   (3461, 3478); (3482, 3505); (3507, 3515); (3517, 3517); (3520, 3526);
   (3558, 3567); (3585, 3632); (3634, 3635); (3648, 3654); (3664, 3673);
   (3713, 3714); (3716, 3716); (3718, 3722); (3724, 3747); (3749, 3749);
   (3751, 3760); (3762, 3763); (3773, 3773); (3776, 3780); (3782, 3782);
   (3792, 3801); (3804, 3807); (3840, 3840); (3872, 3891); (3904, 3911);
   (3913, 3948); (3976, 3980); (4096, 4138); (4159, 4169); (4176, 4181);
   (4186, 4189); (4193, 4193); (4197, 4198); (4206, 4208); (4213, 4225);
   (4238, 4238); (4240, 4249); (4256, 4293); (4295, 4295); (4301, 4301);
   (4304, 4346); (4348, 4680); (4682, 4685); (4688, 4694); (4696, 4696);
   (4698, 4701); (4704, 4744); (4746, 4749); (4752, 4784); (4786, 4789);
   (4792, 4798); (4800, 4800); (4802, 4805); (4808, 4822); (4824, 4880);
   (4882, 4885); (4888, 4954); (4969, 4988); (4992, 5007); (5024, 5109);
   (5112, 5117); (5121, 5740); (5743, 5759); (5761, 5786); (5792, 5866);
   (5870, 5880); (5888, 5905); (5919, 5937); (5952, 5969); (5984, 5996);
   (5998, 6000); (6016, 6067); (6103, 6103); (6108, 6108); (6112, 6121);
   (6128, 6137); (6160, 6169); (6176, 6264); (6272, 6276); (6279, 6312);
   (6314, 6314); (6320, 6389); (6400, 6430); (6470, 6509); (6512, 6516);
   (6528, 6571); (6576, 6601); (6608, 6618); (6656, 6678); (6688, 6740);
   (6784, 6793); (6800, 6809); (6823, 6823); (6917, 6963); (6981, 6988);
   (6992, 7001); (7043, 7072); (7086, 7141); (7168, 7203); (7232, 7241);
   (7245, 7293); (7296, 7304); (7312, 7354); (7357, 7359); (7401, 7404);
   (7406, 7411); (7413, 7414); (7418, 7418); (7424, 7615); (7680, 7957);
   (7960, 7965); (7968, 8005); (8008, 8013); (8016, 8023); (8025, 8025);
   (8027, 8027); (8029, 8029); (8031, 8061); (8064, 8116); (8118, 8124);
   (8126, 8126); (8130, 8132); (8134, 8140); (8144, 8147); (8150, 8155);
   (8160, 8172); (8178, 8180); (8182, 8188); (8304, 8305); (8308, 8313);
   (8319, 8329); (8336, 8348); (8450, 8450); (8455, 8455); (8458, 8467);
   (8469, 8469); (8473, 8477); (8484, 8484); (8486, 8486); (8488, 8488);
   (8490, 8493); (8495, 8505); (8508, 8511); (8517, 8521); (8526, 8526);
   (8528, 8585); (9312, 9371); (9450, 9471); (10102, 10131); (11264, 11492);
   (11499, 11502); (11506, 11507); (11517, 11517); (11520, 11557);
   (11559, 11559); (11565, 11565); (11568, 11623); (11631, 11631);
   (11648, 11670); (11680, 11686); (11688, 11694); (11696, 11702);
   (11704, 11710); (11712, 11718); (11720, 11726); (11728, 11734);
   (11736, 11742); (11823, 11823); (12293, 12295); (12321, 12329);
   (12337, 12341); (12344, 12348); (12353, 12438); (12445, 12447);
   (12449, 12538); (12540, 12543); (12549, 12591); (12593, 12686);
   (12690, 12693); (12704, 12735); (12784, 12799); (12832, 12841);
   (12872, 12879); (12881, 12895); (12928, 12937); (12977, 12991);
   (13312, 19903); (19968, 42124); (42192, 42237); (42240, 42508);
   (42512, 42539); (42560, 42606); (42623, 42653); (42656, 42735);
   (42775, 42783); (42786, 42888); (42891, 42954); (42960, 42961);
   (42963, 42963); (42965, 42969); (42994, 43009); (43011, 43013);
   (43015, 43018); (43020, 43042); (43056, 43061); (43072, 43123);
   (43138, 43187); (43216, 43225); (43250, 43255); (43259, 43259);
   (43261, 43262); (43264, 43301); (43312, 43334); (43360, 43388);
   (43396, 43442); (43471, 43481); (43488, 43492); (43494, 43518);
   (43520, 43560); (43584, 43586); (43588, 43595); (43600, 43609);
   (43616, 43638); (43642, 43642); (43646, 43695); (43697, 43697);
   (43701, 43702); (43705, 43709); (43712, 43712); (43714, 43714);
   (43739, 43741); (43744, 43754); (43762, 43764); (43777, 43782);
   (43785, 43790); (43793, 43798); (43808, 43814); (43816, 43822);
   (43824, 43866); (43868, 43881); (43888, 44002); (44016, 44025);
   (44032, 55203); (55216, 55238); (55243, 55291); (63744, 64109);
   (64112, 64217); (64256, 64262); (64275, 64279); (64285, 64285);
   (64287, 64296); (64298, 64310); (64312, 64316); (64318, 64318);
   (64320, 64321); (64323, 64324); (64326, 64433); (64467, 64829);
   (64848, 64911); (64914, 64967); (65008, 65019); (65136, 65140);
   (65142, 65276); (65296, 65305); (65313, 65338); (65345, 65370);
   (65382, 65470); (65474, 65479); (65482, 65487); (65490, 65495);
   (65498, 65500); (65536, 65547); (65549, 65574); (65576, 65594);
   (65596, 65597); (65599, 65613); (65616, 65629); (65664, 65786);
   (65799, 65843); (65856, 65912); (65930, 65931); (66176, 66204);
   (66208, 66256); (66273, 66299); (66304, 66339); (66349, 66378);
   (66384, 66421); (66432, 66461); (66464, 66499); (66504, 66511);
   (66513, 66517); (66560, 66717); (66720, 66729); (66736, 66771);
   (66776, 66811); (66816, 66855); (66864, 66915); (66928, 66938);
   (66940, 66954); (66956, 66962); (66964, 66965); (66967, 66977);
   (66979, 66993); (66995, 67001); (67003, 67004); (67072, 67382);
   (67392, 67413); (67424, 67431); (67456, 67461); (67463, 67504);
   (67506, 67514); (67584, 67589); (67592, 67592); (67594, 67637);
   (67639, 67640); (67644, 67644); (67647, 67669); (67672, 67702);
   (67705, 67742); (67751, 67759); (67808, 67826); (67828, 67829);
   (67835, 67867); (67872, 67897); (67968, 68023); (68028, 68047);
   (68050, 68096); (68112, 68115); (68117, 68119); (68121, 68149);
   (68160, 68168); (68192, 68222); (68224, 68255); (68288, 68295);
   (68297, 68324); (68331, 68335); (68352, 68405); (68416, 68437);
   (68440, 68466); (68472, 68497); (68521, 68527); (68608, 68680);
   (68736, 68786); (68800, 68850); (68858, 68899); (68912, 68921);
   (69216, 69246); (69248, 69289); (69296, 69297); (69376, 69415);
   (69424, 69445); (69457, 69460); (69488, 69505); (69552, 69579);
   (69600, 69622); (69635, 69687); (69714, 69743); (69745, 69746);
   (69749, 69749); (69763, 69807); (69840, 69864); (69872, 69881);
   (69891, 69926); (69942, 69951); (69956, 69956); (69959, 69959);
   (69968, 70002); (70006, 70006); (70019, 70066); (70081, 70084);
   (70096, 70106); (70108, 70108); (70113, 70132); (70144, 70161);
   (70163, 70187); (70272, 70278); (70280, 70280); (70282, 70285);
   (70287, 70301); (70303, 70312); (70320, 70366); (70384, 70393);
   (70405, 70412); (70415, 70416); (70419, 70440); (70442, 70448);
   (70450, 70451); (70453, 70457); (70461, 70461); (70480, 70480);
   (70493, 70497); (70656, 70708); (70727, 70730); (70736, 70745);
   (70751, 70753); (70784, 70831); (70852, 70853); (70855, 70855);
   (70864, 70873); (71040, 71086); (71128, 71131); (71168, 71215);
   (71236, 71236); (71248, 71257); (71296, 71338); (71352, 71352);
   (71360, 71369); (71424, 71450); (71472, 71483); (71488, 71494);
   (71680, 71723); (71840, 71922); (71935, 71942); (71945, 71945);
   (71948, 71955); (71957, 71958); (71960, 71983); (71999, 71999);
   (72001, 72001); (72016, 72025); (72096, 72103); (72106, 72144);
   (72161, 72161); (72163, 72163); (72192, 72192); (72203, 72242);
   (72250, 72250); (72272, 72272); (72284, 72329); (72349, 72349);
   (72368, 72440); (72704, 72712); (72714, 72750); (72768, 72768);
   (72784, 72812); (72818, 72847); (72960, 72966); (72968, 72969);
   (72971, 73008); (73030, 73030); (73040, 73049); (73056, 73061);
   (73063, 73064); (73066, 73097); (73112, 73112); (73120, 73129);
   (73440, 73458); (73648, 73648); (73664, 73684); (73728, 74649);
   (74752, 74862); (74880, 75075); (77712, 77808); (77824, 78894);
   (82944, 83526); (92160, 92728); (92736, 92766); (92768, 92777);
   (92784, 92862); (92864, 92873); (92880, 92909); (92928, 92975);
   (92992, 92995); (93008, 93017); (93019, 93025); (93027, 93047);
   (93053, 93071); (93760, 93846); (93952, 94026); (94032, 94032);
   (94099, 94111); (94176, 94177); (94179, 94179); (94208, 100343);
   (100352, 101589); (101632, 101640); (110576, 110579); (110581, 110587);
   (110589, 110590); (110592, 110882); (110928, 110930); (110948, 110951);
   (110960, 111355); (113664, 113770); (113776, 113788); (113792, 113800);
   (113808, 113817); (119520, 119539); (119648, 119672); (119808, 119892);
   (119894, 119964); (119966, 119967); (119970, 119970); (119973, 119974);
   (119977, 119980); (119982, 119993); (119995, 119995); (119997, 120003);
   (120005, 120069); (120071, 120074); (120077, 120084); (120086, 120092);
   (120094, 120121); (120123, 120126); (120128, 120132); (120134, 120134);
   (120138, 120144); (120146, 120485); (120488, 120512); (120514, 120538);
   (120540, 120570); (120572, 120596); (120598, 120628); (120630, 120654);
   (120656, 120686); (120688, 120712); (120714, 120744); (120746, 120770);
   (120772, 120779); (120782, 120831); (122624, 122654); (123136, 123180);
   (123191, 123197); (123200, 123209); (123214, 123214); (123536, 123565);
   (123584, 123627); (123632, 123641); (124896, 124902); (124904, 124907);
   (124909, 124910); (124912, 124926); (124928, 125124); (125127, 125135);
   (125184, 125251); (125259, 125259); (125264, 125273); (126065, 126123);
   (126125, 126127); (126129, 126132); (126209, 126253); (126255, 126269);
   (126464, 126467); (126469, 126495); (126497, 126498); (126500, 126500);
   (126503, 126503); (126505, 126514); (126516, 126519); (126521, 126521);
   (126523, 126523); (126530, 126530); (126535, 126535); (126537, 126537);
   (126539, 126539); (126541, 126543); (126545, 126546); (126548, 126548);
   (126551, 126551); (126553, 126553); (126555, 126555); (126557, 126557);
   (126559, 126559); (126561, 126562); (126564, 126564); (126567, 126570);
   (126572, 126578); (126580, 126583); (126585, 126588); (126590, 126590);
   (126592, 126601); (126603, 126619); (126625, 126627); (126629, 126633);
   (126635, 126651); (127232, 127244); (130032, 130041); (131072, 173791);
   (173824, 177976); (177984, 178205); (178208, 183969); (183984, 191456);
   (194560, 195101); (196608, 201546)])%N.

(** [c.isalnum()]. *)
Definition isalnum (c : N) : bool :=
  existsb (fun r : N * N => between r.1 r.2 c) alnum_ranges.

(** The characters the ASCII class [[A-Za-z0-9]] names. *)
Definition ascii_alnum (c : N) : bool :=
  between 48 57 c || between 65 90 c || between 97 122 c.

(** [c in s] for a character [c] and a string [s]. *)
Definition char_in (c : N) (s : str) : bool := existsb (N.eqb c) s.

(** [c.lower()] on one character of a Rocq string: A..Z and the capital
    letters U+00C0..U+00DE (but U+00D7) move up by 32. *)
Definition lower_char (c : ascii) : ascii :=
  let n := N_of_ascii c in
  if between 65 90 n || between 192 214 n || between 216 222 n
  then ascii_of_N (n + 32) else c.

(** [s.lower()]. *)
Fixpoint lower (s : string) : string :=
  match s with
  | EmptyString => EmptyString
  | String c s' => String (lower_char c) (lower s')
  end.

(** ** The cache fingerprint

    [cache_key = f"{space_key}_{int(time.time() / (3600 * 24))}"]:
    [int] of a float truncates towards zero. *)

Definition int_of_float (x : Q) : Z := Z.quot (Qnum x) (Zpos (Qden x)).

Definition cache_key (space_key : string) (time_time : Q) : string :=
  space_key +:+ "_" +:+ pretty (int_of_float (time_time / inject_Z (3600 * 24))).

(** ** The output file name

    [safe_name = "".join([c if c.isalnum() or c in "._- " else "_" for c in space_name])]
    and the name [f"{space_key}_{safe_name}.html.zip"]. *)

Definition safe_char (c : N) : N :=
  if isalnum c || char_in c (of_string "._- ") then c else N_of_ascii "_".

Definition safe_name (space_name : str) : str := map safe_char space_name.

(** [f"{space_key}_{safe_name}.html.zip"]. *)
Definition output_name (space_key space_name : str) : str :=
  space_key ++ of_string "_" ++ safe_name space_name ++ of_string ".html.zip".

(** ** Data model *)

(** The exceptions the two scripts can meet.  [ClientError] and
    [TimeoutError] are the two classes the download loop of the asyncio
    exporter retries on ([aiohttp.ClientError], [asyncio.TimeoutError]);
    [TypeError] is what [cache_key in None] raises, [ValueError] what
    [int] raises on a malformed header, [OverflowError] what the division
    of a huge declared size raises, [OSError] what [open] and [write]
    raise, [OtherError] any other subclass of [Exception]. *)
Inductive exn :=
| ClientError | TimeoutError | TypeError | ValueError | OverflowError | OSError | OtherError.

Inductive res (A : Type) :=
| Ok (a : A)
| Raise (e : exn).
Arguments Ok {A} a.
Arguments Raise {A} e.

(** One entry of the [results] of the space listing; [space['key']] and
    [space['type']] are read with mandatory lookups, [name] and [status]
    with [space.get]. *)
Record space := Space {
  s_key : string;
  s_name : option str;
  s_type : string;
  s_status : option string
}.

(** What [json.load] may hand to [self.export_cache]: the object the
    exporter writes, or [null]. *)
Inductive pyobj :=
| PyNone
| PyDict (d : gmap string str).

(** The cache file [export_cache.json] on disk. *)
Inductive file_content :=
| Missing
| Corrupt
| Json (v : pyobj).

Definition bytes := list Byte.byte.

(** The exporter object together with the part of the disk it writes:
    the cache file and the downloaded archives, by path.  [output_dir]
    maps a file name to [str(self.output_dir / name)]. *)
Record exporter := Exporter {
  output_dir : str -> str;
  export_cache : pyobj;
  cache_file : file_content;
  archives : gmap str bytes
}.

(** What happens when a file is opened for writing and written: all
    goes well, [open] raises, or the write of the [n]-th non-empty piece
    (from 0) raises, the earlier pieces being in the file. *)
Inductive file_result :=
| Writes
| OpenFails
| WriteFails (n : nat).

(** The [content-length] header of a reply, as
    [int(response.headers.get('content-length', 0))] sees it. *)
Inductive header :=
| NoLength
| Length (n : Z)
| BadLength.

(** The reply to one GET on the export URL: the request raises, or a
    status line and headers arrive and the body is delivered as chunks,
    after which the stream ends or raises. *)
Inductive attempt :=
| Refused (e : exn)
| Response (status : Z) (content_length : header) (chunks : list bytes) (tail : option exn).

(** The world outside the exporter: the clock, the paginated listing of
    the REST client ([None] for a reply that is falsy or has no
    ['results']), its export request, the reply to the [n]-th GET
    (from 0) a task issues on a URL, and what writing the file at a path
    results in. *)
Record remote := Remote {
  time_time : Q;
  get_all_spaces : Z -> Z -> res (option (list space));
  get_space_export : string -> res (option string);
  http_get : string -> nat -> attempt;
  disk : str -> file_result
}.

Inductive event :=
| ListRequest (start limit : Z)
| ExportRequest (space_key : string)
| Get (url : string)
| Sleep (seconds : Z).

(** [(success, space_key, file_path)]. *)
Definition outcome : Type := bool * string * option str.
Definition failed (space_key : string) : outcome := (false, space_key, None).

(** [self.output_dir / f"{space_key}_{safe_name}.html.zip"], as text. *)
Definition output_file (self : exporter) (space_key : string) (space_name : str) : str :=
  output_dir self (output_name (of_string space_key) space_name).

(** [self.cache_file = self.output_dir / 'export_cache.json']. *)
Definition cache_path (self : exporter) : str :=
  output_dir self (of_string "export_cache.json").

Definition _load_cache (on_disk : file_content) : pyobj :=
  match on_disk with
  | Json v => v
  | Missing | Corrupt => PyDict ∅
  end.

(** [_save_cache]: [open(self.cache_file, 'w')] truncates the file and
    [json.dump] rewrites it whole; an exception of either is caught and
    logged.  If [open] raises the file is as it was; if the write raises
    the file holds a part of the text. *)
Definition _save_cache (w : remote) (self : exporter) : exporter :=
  match disk w (cache_path self) with
  | Writes =>
      Exporter (output_dir self) (export_cache self) (Json (export_cache self)) (archives self)
  | OpenFails => self
  | WriteFails _ =>
      Exporter (output_dir self) (export_cache self) Corrupt (archives self)
  end.

(** [self.export_cache[cache_key] = path], [d] being the dictionary the
    exporter holds. *)
Definition cache_insert (self : exporter) (d : gmap string str) (k : string) (path : str)
  : exporter :=
  Exporter (output_dir self) (PyDict (<[k := path]> d)) (cache_file self) (archives self).

Definition write_archive (self : exporter) (path : str) (content : bytes) : exporter :=
  Exporter (output_dir self) (export_cache self) (cache_file self) (<[path := content]> (archives self)).

(** [if not export_url]: [None] and the empty string are falsy. *)
Definition usable_url (export_url : option string) : option string :=
  match export_url with
  | Some EmptyString | None => None
  | Some url => Some url
  end.

(** [for chunk in ...: if chunk: f.write(chunk); downloaded += len(chunk)].
    The progress the asyncio script computes from [downloaded] in the
    same loop is only logged, and its division raises for a body of
    2^1023 bytes or more only, which no stream delivers. *)
Fixpoint write_chunks (chunks : list bytes) (f : bytes) (downloaded : Z) : bytes * Z :=
  match chunks with
  | [] => (f, downloaded)
  | chunk :: rest =>
      match chunk with
      | [] => write_chunks rest f downloaded
      | _ => write_chunks rest (f ++ chunk) (downloaded + Z.of_nat (length chunk))
      end
  end.

(** The same loop when the [n]-th write raises: what is in the file by
    then, or [None] if the chunks run out before that write. *)
Fixpoint write_until (n : nat) (chunks : list bytes) (f : bytes) : option bytes :=
  match chunks with
  | [] => None
  | chunk :: rest =>
      match chunk with
      | [] => write_until n rest f
      | _ =>
          match n with
          | O => Some f
          | S n' => write_until n' rest (f ++ chunk)
          end
      end
  end.

(** [with open(output_file, 'wb') as f:] and the chunk loop in it: the
    exporter after it, the number of bytes counted, and whether [open] or
    a [write] raised. *)
Definition store (w : remote) (self : exporter) (output_file : str) (chunks : list bytes)
  : exporter * Z * bool :=
  match disk w output_file with
  | Writes =>
      let '(f, downloaded) := write_chunks chunks [] 0 in
      (write_archive self output_file f, downloaded, true)
  | OpenFails => (self, 0, false)
  | WriteFails n =>
      match write_until n chunks [] with
      | Some f => (write_archive self output_file f, 0, false)
      | None =>
          let '(f, downloaded) := write_chunks chunks [] 0 in
          (write_archive self output_file f, downloaded, true)
      end
  end.

(** ** The export task of the thread-pool exporter

    [ConfluenceExporter.export_space], lines 89-137.  The cache check is
    outside the [try]; everything after it is inside, so every exception
    there becomes a failed outcome.  [requests.get] is called without
    [stream=True] and so reads the whole body: a stream that breaks raises
    before the output file is opened.  Neither the status nor the
    [content-length] of the reply is looked at. *)
Definition export_space_sync (w : remote) (self : exporter) (sp : space)
  : res outcome * exporter * list event :=
  let space_key := s_key sp in
  let space_name := default (of_string space_key) (s_name sp) in
  let cache_key := cache_key space_key (time_time w) in
  match export_cache self with
  | PyNone => (Raise TypeError, self, [])
  | PyDict d =>
      match d !! cache_key with
      | Some path => (Ok (true, space_key, Some path), self, [])
      | None =>
          match get_space_export w space_key with
          | Raise _ => (Ok (failed space_key), self, [ExportRequest space_key])
          | Ok export_url =>
              match usable_url export_url with
              | None => (Ok (failed space_key), self, [ExportRequest space_key])
              | Some url =>
                  let output_file := output_file self space_key space_name in
                  let log := [ExportRequest space_key; Get url] in
                  match http_get w url 0 with
                  | Refused _ => (Ok (failed space_key), self, log)
                  | Response _ _ _ (Some _) => (Ok (failed space_key), self, log)
                  | Response _ _ chunks None =>
                      let '(self, _, written) := store w self output_file chunks in
                      if written : bool then
                        let self := _save_cache w (cache_insert self d cache_key output_file) in
                        (Ok (true, space_key, Some output_file), self, log)
                      else (Ok (failed space_key), self, log)
                  end
              end
          end
      end
  end.
(** ** The export task of the asyncio exporter

    [ConfluenceAsyncExporter.export_space], lines 93-195. *)

Definition max_retries : Z := 3.

(** [retry_delay = 5 * (2 ** retry_count)]. *)
Definition retry_delay (retry_count : Z) : Z := 5 * 2 ^ retry_count.

(** [total_size/1024/1024] in the log line of line 149: the true
    division of an [int] raises [OverflowError] when the quotient by 1024
    is beyond the range of a float. *)
Definition overflows (total_size : Z) : bool :=
  2 ^ 1034 - 2 ^ 980 <=? Z.abs total_size.

(** The two classes named by the inner [except]. *)
Definition retried (e : exn) : bool :=
  match e with
  | ClientError | TimeoutError => true
  | _ => false
  end.

Section download.
Variable w : remote.
Variables space_key export_url : string.
Variable output_file : str.
Variable cache_key : string.
(** The dictionary [self.export_cache] holds when the loop is entered. *)
Variable d : gmap string str.

(** The loop [while retry_count < max_retries] of lines 132-191.  Every
    iteration that does not return adds one to [retry_count], so the
    recursion is on [left], the number of iterations still allowed;
    [download] starts it with [left = max_retries] and [retry_count = 0].
    [again] is what the three failure branches share: count the attempt,
    then sleep and go round again, or give up. *)
Fixpoint download_loop (left : nat) (retry_count : Z) (self : exporter) (log : list event)
  : res outcome * exporter * list event :=
  match left with
  | O => (Ok (failed space_key), self, log)
  | S left' =>
      if retry_count <? max_retries then
        let log := log ++ [Get export_url] in
        let again (self : exporter) :=
          let retry_count := retry_count + 1 in
          if retry_count <? max_retries
          then download_loop left' retry_count self (log ++ [Sleep (retry_delay retry_count)])
          else (Ok (failed space_key), self, log) in
        let on_exception (e : exn) (self : exporter) :=
          if retried e then again self else (Ok (failed space_key), self, log) in
        match http_get w export_url (Z.to_nat retry_count) with
        | Refused e => on_exception e self
        | Response status content_length chunks tail =>
            if negb (status =? 200) then again self
            else
              match content_length with
              | BadLength => on_exception ValueError self
              | NoLength | Length _ =>
                let total_size := match content_length with Length n => n | _ => 0 end in
                if overflows total_size then on_exception OverflowError self
                else
                  let '(self, downloaded, written) := store w self output_file chunks in
                  if negb written then on_exception OSError self
                  else
                    match tail with
                    | Some e => on_exception e self
                    | None =>
                        if (0 <? total_size) && (downloaded <? total_size) then again self
                        else
                          let self :=
                            _save_cache w (cache_insert self d cache_key output_file) in
                          (Ok (true, space_key, Some output_file), self, log)
                    end
              end
        end
      else (Ok (failed space_key), self, log)
  end.

Definition download (self : exporter) (log : list event) :=
  download_loop (Z.to_nat max_retries) 0 self log.
End download.

Definition export_space_async (w : remote) (self : exporter) (sp : space)
  : res outcome * exporter * list event :=
  let space_key := s_key sp in
  let space_name := default (of_string space_key) (s_name sp) in
  let cache_key := cache_key space_key (time_time w) in
  match export_cache self with
  | PyNone => (Raise TypeError, self, [])
  | PyDict d =>
      match d !! cache_key with
      | Some path => (Ok (true, space_key, Some path), self, [])
      | None =>
          match get_space_export w space_key with
          | Raise _ => (Ok (failed space_key), self, [ExportRequest space_key])
          | Ok export_url =>
              match usable_url export_url with
              | None => (Ok (failed space_key), self, [ExportRequest space_key])
              | Some url =>
                  let output_file := output_file self space_key space_name in
                  download w space_key url output_file cache_key d self [ExportRequest space_key]
              end
          end
      end
  end.

(** ** Choosing the spaces to export

    Lines 176-199 of the thread-pool script and 238-259 of the asyncio
    script, which are the same text. *)

Definition is_personal (sp : space) : bool :=
  String.eqb (lower (s_type sp)) "personal".

Definition is_archived (sp : space) : bool :=
  String.eqb (lower (default EmptyString (s_status sp))) "archived".

(** The [for] loop with its two [continue]s. *)
Fixpoint filter_by_flags (all_spaces : list space) (include_personal include_archived : bool)
  : list space :=
  match all_spaces with
  | [] => []
  | sp :: rest =>
      if is_personal sp && negb include_personal
      then filter_by_flags rest include_personal include_archived
      else if is_archived sp && negb include_archived
      then filter_by_flags rest include_personal include_archived
      else sp :: filter_by_flags rest include_personal include_archived
  end.

(** [specific_spaces] is [None] or a list; [if specific_spaces:] holds for
    a list that is not empty. *)
Definition select_spaces (all_spaces : list space) (include_personal include_archived : bool)
    (specific_spaces : option (list string)) : list space :=
  match specific_spaces with
  | Some (k :: ks) =>
      let specific_keys : gset string := list_to_set (k :: ks) in
      filter (fun sp => s_key sp ∈ specific_keys) all_spaces
  | Some [] | None => filter_by_flags all_spaces include_personal include_archived
  end.

(** ** Discovery

    The paging loop of lines 151-171 (212-232 in the asyncio script).  It
    stops at a falsy reply, an empty page or a short page; a server that
    keeps sending full pages keeps it running, hence the fuel ([None] when
    it runs out).  An exception of the listing call is not caught. *)

Definition limit : Z := 50.

Fixpoint fetch_all_spaces (w : remote) (fuel : nat) (start : Z)
    (all_spaces : list space) (log : list event) : option (res (list space) * list event) :=
  match fuel with
  | O => None
  | S fuel' =>
      let log := log ++ [ListRequest start limit] in
      match get_all_spaces w start limit with
      | Raise e => Some (Raise e, log)
      | Ok None => Some (Ok all_spaces, log)
      | Ok (Some []) => Some (Ok all_spaces, log)
      | Ok (Some spaces) =>
          let all_spaces := all_spaces ++ spaces in
          if Z.of_nat (length spaces) <? limit then Some (Ok all_spaces, log)
          else fetch_all_spaces w fuel' (start + limit) all_spaces log
      end
  end.

(** ** Running the tasks and collecting the results *)

(** [(successful_exports, failed_spaces)]. *)
Definition summary : Type := nat * list string.

(** The futures in the order in which they complete, each with the space
    it was submitted for ([future_to_space]) and with what
    [future.result()] gives or raises. *)
Definition completed : Type := list (space * res outcome).

(** The result loop of the thread-pool exporter, lines 217-227: an
    exception of a task puts the key of its space on the failure list. *)
Fixpoint collect_sync (done : completed) (successful_exports : nat) (failed_spaces : list string)
  : summary :=
  match done with
  | [] => (successful_exports, failed_spaces)
  | (sp, Ok (success, space_key, _)) :: rest =>
      if success : bool then collect_sync rest (S successful_exports) failed_spaces
      else collect_sync rest successful_exports (failed_spaces ++ [space_key])
  | (sp, Raise _) :: rest =>
      collect_sync rest successful_exports (failed_spaces ++ [s_key sp])
  end.

(** The result loop of the asyncio exporter, lines 280-290:
    [asyncio.as_completed] hands over the results only, and the [except]
    branch logs the exception and goes on. *)
Fixpoint collect_async (done : list (res outcome)) (successful_exports : nat)
    (failed_spaces : list string) : summary :=
  match done with
  | [] => (successful_exports, failed_spaces)
  | Ok (success, space_key, _) :: rest =>
      if success : bool then collect_async rest (S successful_exports) failed_spaces
      else collect_async rest successful_exports (failed_spaces ++ [space_key])
  | Raise _ :: rest => collect_async rest successful_exports failed_spaces
  end.

(** The tasks run one after the other, in the order of submission, on the
    shared exporter: the schedule of a pool with one worker, and one of
    the schedules of any pool. *)
Section run_tasks.
Variable task : exporter -> space -> res outcome * exporter * list event.

Fixpoint run_tasks (self : exporter) (spaces_to_export : list space)
  : completed * exporter * list event :=
  match spaces_to_export with
  | [] => ([], self, [])
  | sp :: rest =>
      let '(r, self, log) := task self sp in
      let '(done, self, log') := run_tasks self rest in
      ((sp, r) :: done, self, log ++ log')
  end.
End run_tasks.

(** [export_all_spaces] from the point where [all_spaces] is known:
    lines 173-234 of the thread-pool script. *)
Definition export_selected_sync (w : remote) (self : exporter) (all_spaces : list space)
    (include_personal include_archived : bool) (specific_spaces : option (list string))
  : summary * exporter * list event :=
  match select_spaces all_spaces include_personal include_archived specific_spaces with
  | [] => ((O, []), self, [])
  | spaces_to_export =>
      let '(done, self, log) := run_tasks (export_space_sync w) self spaces_to_export in
      (collect_sync done 0 [], self, log)
  end.

(** Lines 234-298 of the asyncio script. *)
Definition export_selected_async (w : remote) (self : exporter) (all_spaces : list space)
    (include_personal include_archived : bool) (specific_spaces : option (list string))
  : summary * exporter * list event :=
  match select_spaces all_spaces include_personal include_archived specific_spaces with
  | [] => ((O, []), self, [])
  | spaces_to_export =>
      let '(done, self, log) := run_tasks (export_space_async w) self spaces_to_export in
      (collect_async (map snd done) 0 [], self, log)
  end.

Section export_all_spaces.
Variable export_selected :
  remote -> exporter -> list space -> bool -> bool -> option (list string) ->
  summary * exporter * list event.

Definition export_all_spaces (w : remote) (self : exporter) (fuel : nat)
    (include_personal include_archived : bool) (specific_spaces : option (list string))
  : option (res summary * exporter * list event) :=
  match fetch_all_spaces w fuel 0 [] [] with
  | None => None
  | Some (Raise e, log) => Some (Raise e, self, log)
  | Some (Ok all_spaces, log) =>
      let '(s, self, log') :=
        export_selected w self all_spaces include_personal include_archived specific_spaces in
      Some (Ok s, self, log ++ log')
  end.

(** The tail of [main]: [--spaces] given, the flags are left at their
    defaults; [return 0 if not failed else 1]; an exception that leaves
    [export_all_spaces] ends the process with status 1. *)
Definition main (w : remote) (self : exporter) (fuel : nat)
    (args_spaces : option (list string)) (include_personal include_archived : bool)
  : option Z :=
  let run :=
    match args_spaces with
    | Some (_ :: _) => export_all_spaces w self fuel false false args_spaces
    | _ => export_all_spaces w self fuel include_personal include_archived None
    end in
  match run with
  | None => None
  | Some (Raise _, _, _) => Some 1
  | Some (Ok (_, []), _, _) => Some 0
  | Some (Ok (_, _ :: _), _, _) => Some 1
  end.
End export_all_spaces.

Definition export_all_spaces_sync := export_all_spaces export_selected_sync.
Definition export_all_spaces_async := export_all_spaces export_selected_async.
Definition main_sync := main export_selected_sync.
Definition main_async := main export_selected_async.

(** [__init__]: the cache is loaded from the file found on disk. *)
Definition new_exporter (output_dir : str -> str) (on_disk : file_content)
    (archives : gmap str bytes) : exporter :=
  Exporter output_dir (_load_cache on_disk) on_disk archives.

Unset Elimination Schemes.
(** ** Tasks that run concurrently

    The functions above run a task from its start to its end.  Here a
    task is a coroutine: it runs until it is suspended and goes on, when
    the scheduler resumes it, from the exporter as the other tasks have
    left it by then.  [Await step] is a suspended task: resumed on [self],
    it leaves the exporter [(step self).1.1], has logged [(step self).1.2]
    and is then [(step self).2]. *)
Inductive coro :=
| Return (r : res outcome)
| Await (step : exporter -> exporter * list event * coro).
Set Elimination Schemes.

(** A task that is the only one to run. *)
Fixpoint run_alone (c : coro) (self : exporter) (log : list event)
  : res outcome * exporter * list event :=
  match c with
  | Return r => (r, self, log)
  | Await step =>
      let '(self, l, c) := step self in
      run_alone c self (log ++ l)
  end.

(** Two tasks on the one exporter.  The schedule says, turn by turn,
    which of the two is resumed ([true] for the first); the turn of a
    task that has returned passes. *)
Fixpoint run_two (schedule : list bool) (c1 c2 : coro) (self : exporter) (log : list event)
  : coro * coro * exporter * list event :=
  match schedule with
  | [] => (c1, c2, self, log)
  | first :: rest =>
      match (if first : bool then c1 else c2) with
      | Return _ => run_two rest c1 c2 self log
      | Await step =>
          let '(self, l, c) := step self in
          if first then run_two rest c c2 self (log ++ l)
          else run_two rest c1 c self (log ++ l)
      end
  end.

(** *** The task of the asyncio exporter

    [ConfluenceAsyncExporter.export_space] is suspended where it awaits
    and nowhere else: at [async with self.semaphore], at
    [async with session.get(...)], at every step of [async for chunk],
    and at [await asyncio.sleep(...)].  Leaving an [async with] block
    awaits too; the task runs no code of its own between that point and
    the next suspension or its return, so the two are taken as one.  A
    call is logged when it is issued, before the task is suspended in it.
    [get_space_export] is called without [await]. *)
Section coroutine.
Variable w : remote.
Variables space_key export_url : string.
Variable output_file : str.
Variable cache_key : string.

(** Lines 175-178: the insertion is into the dictionary the exporter
    holds now. *)
Definition commit (self : exporter) : exporter * list event * coro :=
  match export_cache self with
  | PyDict d =>
      (_save_cache w (cache_insert self d cache_key output_file), [],
       Return (Ok (true, space_key, Some output_file)))
  | PyNone => (self, [], Return (Ok (failed space_key)))
  end.

Section stream.
(** What the branches of the loop body do: count the attempt and sleep
    or give up, and the outer [except]. *)
Variables again fail : exporter -> exporter * list event * coro.
Variable tail : option exn.
Variable total_size : Z.

(** The task inside [async for chunk in ...], with [f] in the file and
    [budget] writes to go before one raises ([None] if none does).  It is
    suspended for the next chunk; at the end of the stream it goes on to
    the integrity check and the commit without another suspension. *)
Fixpoint stream (chunks : list bytes) (f : bytes) (downloaded : Z) (budget : option nat)
  : coro :=
  match chunks with
  | [] =>
      Await (fun self =>
        match tail with
        | Some e => if retried e then again self else fail self
        | None =>
            if (0 <? total_size) && (downloaded <? total_size) then again self
            else commit self
        end)
  | chunk :: rest =>
      match chunk with
      | [] => Await (fun self => (self, [], stream rest f downloaded budget))
      | _ =>
          match budget with
          | Some O => Await fail
          | _ =>
              Await (fun self =>
                (write_archive self output_file (f ++ chunk), [],
                 stream rest (f ++ chunk) (downloaded + Z.of_nat (length chunk))
                   (pred <$> budget)))
          end
      end
  end.
End stream.

(** The task suspended in [session.get], in the iteration that began
    with [retry_count]; [left] bounds the iterations as in
    [download_loop]. *)
Fixpoint attempt_coro (left : nat) (retry_count : Z) : coro :=
  match left with
  | O => Return (Ok (failed space_key))
  | S left' =>
      let fail (self : exporter) := (self, [], Return (Ok (failed space_key))) in
      let again (self : exporter) :=
        let retry_count := retry_count + 1 in
        if retry_count <? max_retries
        then (self, [Sleep (retry_delay retry_count)],
              Await (fun self => (self, [Get export_url], attempt_coro left' retry_count)))
        else fail self in
      Await (fun self =>
        match http_get w export_url (Z.to_nat retry_count) with
        | Refused e => if retried e then again self else fail self
        | Response status content_length chunks tail =>
            if negb (status =? 200) then again self
            else
              match content_length with
              | BadLength => fail self
              | NoLength | Length _ =>
                  let total_size := match content_length with Length n => n | _ => 0 end in
                  if overflows total_size then fail self
                  else
                    match disk w output_file with
                    | OpenFails => fail self
                    | Writes =>
                        (write_archive self output_file [], [],
                         stream again fail tail total_size chunks [] 0 None)
                    | WriteFails n =>
                        (write_archive self output_file [], [],
                         stream again fail tail total_size chunks [] 0 (Some n))
                    end
              end
        end)
  end.
End coroutine.

Definition export_space_coro (w : remote) (sp : space) : coro :=
  let space_key := s_key sp in
  let space_name := default (of_string space_key) (s_name sp) in
  let cache_key := cache_key space_key (time_time w) in
  Await (fun self =>
    match export_cache self with
    | PyNone => (self, [], Return (Raise TypeError))
    | PyDict d =>
        match d !! cache_key with
        | Some path => (self, [], Return (Ok (true, space_key, Some path)))
        | None =>
            match get_space_export w space_key with
            | Raise _ => (self, [ExportRequest space_key], Return (Ok (failed space_key)))
            | Ok export_url =>
                match usable_url export_url with
                | None => (self, [ExportRequest space_key], Return (Ok (failed space_key)))
                | Some url =>
                    let output_file := output_file self space_key space_name in
                    (self, [ExportRequest space_key; Get url],
                     attempt_coro w space_key url output_file cache_key
                       (Z.to_nat max_retries) 0)
                end
            end
        end
    end).

(** *** The task of the thread-pool exporter

    A thread can be suspended between any two instructions.  The model
    has a suspension before each statement of
    [ConfluenceExporter.export_space] that reads or writes the exporter or
    calls the service, and none inside a statement: its schedules are
    among those of the pool. *)
Definition export_space_thread (w : remote) (sp : space) : coro :=
  let space_key := s_key sp in
  let space_name := default (of_string space_key) (s_name sp) in
  let cache_key := cache_key space_key (time_time w) in
  let fail (self : exporter) := (self, [], Return (Ok (failed space_key))) in
  Await (fun self =>
    match export_cache self with
    | PyNone => (self, [], Return (Raise TypeError))
    | PyDict d =>
        match d !! cache_key with
        | Some path => (self, [], Return (Ok (true, space_key, Some path)))
        | None =>
            (self, [],
             Await (fun self =>
               match get_space_export w space_key with
               | Raise _ => (self, [ExportRequest space_key], Return (Ok (failed space_key)))
               | Ok export_url =>
                   match usable_url export_url with
                   | None =>
                       (self, [ExportRequest space_key], Return (Ok (failed space_key)))
                   | Some url =>
                       let output_file := output_file self space_key space_name in
                       (self, [ExportRequest space_key],
                        Await (fun self =>
                          match http_get w url 0 with
                          | Refused _ => (self, [Get url], Return (Ok (failed space_key)))
                          | Response _ _ _ (Some _) =>
                              (self, [Get url], Return (Ok (failed space_key)))
                          | Response _ _ chunks None =>
                              (self, [Get url],
                               Await (fun self =>
                                 let '(self, _, written) :=
                                   store w self output_file chunks in
                                 if written : bool then
                                   (self, [],
                                    Await (fun self =>
                                      match export_cache self with
                                      | PyNone => fail self
                                      | PyDict d =>
                                          (cache_insert self d cache_key output_file, [],
                                           Await (fun self =>
                                             (_save_cache w self, [],
                                              Return
                                                (Ok (true, space_key, Some output_file)))))
                                      end))
                                 else fail self))
                          end))
                   end
               end))
        end
    end).


(** ** Vocabulary of the statements *)

(** One day, the width of a cache bucket, in seconds. *)
Definition day : Q := inject_Z (3600 * 24).

Definition string_forall (P : N -> bool) (s : str) : bool := forallb P s.

(** What the sanitiser keeps: [c.isalnum() or c in "._- "]. *)
Definition kept (c : N) : bool := isalnum c || char_in c (of_string "._- ").

(** The class [[A-Za-z0-9._- ]]. *)
Definition in_ascii_class (c : N) : bool :=
  ascii_alnum c || char_in c (of_string "._- ").

(** No alphanumeric character outside ASCII. *)
Definition alnum_is_ascii (c : N) : bool := implb (isalnum c) (ascii_alnum c).

(** What one reply leaves on disk and what it counts. *)
Definition body (chunks : list bytes) : bytes := fst (write_chunks chunks [] 0).
Definition downloaded (chunks : list bytes) : Z := snd (write_chunks chunks [] 0).

Definition total_size (content_length : header) : Z :=
  match content_length with
  | Length n => n
  | NoLength | BadLength => 0
  end.

(** The reply declares a size and the stream ends short of it. *)
Definition falls_short (content_length : header) (chunks : list bytes) : bool :=
  (0 <? total_size content_length) && (downloaded chunks <? total_size content_length).

(** The transient failures of an attempt: a status other than 200, a
    network error or a timeout (of the request or of the stream), an
    incomplete transfer; the size a 200 reply declares is within the range
    of a float. *)
Definition transient (a : attempt) : bool :=
  match a with
  | Refused e => retried e
  | Response status content_length chunks tail =>
      if status =? 200 then
        match content_length, tail with
        | BadLength, _ => false
        | _, Some e => negb (overflows (total_size content_length)) && retried e
        | _, None =>
            negb (overflows (total_size content_length))
            && falls_short content_length chunks
        end
      else true
  end.

(** A clean download: status 200, the stream ends, and the declared
    size, if any, is within the range of a float and is not missed. *)
Definition complete (a : attempt) : bool :=
  match a with
  | Response status content_length chunks None =>
      (status =? 200)
      && match content_length with
         | BadLength => false
         | _ =>
             negb (overflows (total_size content_length))
             && negb (falls_short content_length chunks)
         end
  | _ => false
  end.

(** What an attempt of the asyncio exporter leaves in the output file:
    what [store] leaves for a 200 reply with a usable declared size, the
    file untouched otherwise. *)
Definition after_attempt (w : remote) (self : exporter) (output_file : str) (a : attempt)
  : exporter :=
  match a with
  | Response status content_length chunks _ =>
      if status =? 200 then
        match content_length with
        | BadLength => self
        | _ =>
            if overflows (total_size content_length) then self
            else (store w self output_file chunks).1.1
        end
      else self
  | Refused _ => self
  end.

(** Whether [open] and every [write] of the chunks go through on the
    file at [output_file]. *)
Definition written (w : remote) (output_file : str) (chunks : list bytes) : bool :=
  match disk w output_file with
  | Writes => true
  | OpenFails => false
  | WriteFails n => bool_decide (write_until n chunks [] = None)
  end.

(** Whether the attempt gets as far as the output file and [open] or a
    [write] raises there. *)
Definition write_fails (w : remote) (output_file : str) (a : attempt) : bool :=
  match a with
  | Response status content_length chunks _ =>
      (status =? 200)
      && match content_length with
         | BadLength => false
         | _ =>
             negb (overflows (total_size content_length))
             && negb (written w output_file chunks)
         end
  | Refused _ => false
  end.

(** The exporter after a commit of [path] under [k]. *)
Definition committed (w : remote) (self : exporter) (d : gmap string str) (k : string)
    (path : str) (content : bytes) : exporter :=
  _save_cache w (cache_insert (write_archive self path content) d k path).

Definition is_get (e : event) : bool :=
  match e with
  | Get _ => true
  | _ => false
  end.

(** The number of download attempts in a log. *)
Definition attempts (log : list event) : nat := length (List.filter is_get log).


(** A completed future carries the key of its own space. *)
Definition own_key (c : space * res outcome) : Prop :=
  forall b k p, c.2 = Ok (b, k, p) -> k = s_key c.1.

Definition returned (r : res outcome) : bool :=
  match r with
  | Ok _ => true
  | Raise _ => false
  end.

(** The futures that completed with a success. *)
Definition succeeded (r : res outcome) : bool :=
  match r with
  | Ok (true, _, _) => true
  | _ => false
  end.

(** The key the thread-pool result loop puts on the failure list for a
    completed future, if any. *)
Definition failure_sync (c : space * res outcome) : option string :=
  match c.2 with
  | Ok (true, _, _) => None
  | Ok (false, space_key, _) => Some space_key
  | Raise _ => Some (s_key c.1)
  end.

(** The same for the asyncio result loop. *)
Definition failure_async (r : res outcome) : option string :=
  match r with
  | Ok (false, space_key, _) => Some space_key
  | _ => None
  end.

(** ** Vocabulary of concurrent runs *)

(** A task that has returned. *)
Definition finished (c : coro) : bool :=
  match c with
  | Return _ => true
  | Await _ => false
  end.

Unset Elimination Schemes.
(** What a task of fingerprint [k] may still do to the cache: every step
    leaves the dictionary and the cache file as they are, or inserts a
    path under [k], calls [_save_cache] and returns a success with that
    path; a success without a commit returns what the dictionary holds
    under [k]; a task that returns otherwise returns no success. *)
Inductive commits (w : remote) (k : string) : coro -> Prop :=
| commits_return (r : res outcome) :
    succeeded r = false -> commits w k (Return r)
| commits_await (step : exporter -> exporter * list event * coro) :
    (forall self d, export_cache self = PyDict d ->
       (export_cache (step self).1.1 = PyDict d
        /\ cache_file (step self).1.1 = cache_file self
        /\ output_dir (step self).1.1 = output_dir self
        /\ (commits w k (step self).2
            \/ exists key p, (step self).2 = Return (Ok (true, key, Some p))
                 /\ d !! k = Some p))
       \/ (exists key p self0,
             (step self).2 = Return (Ok (true, key, Some p))
             /\ (step self).1.1 = _save_cache w self0
             /\ output_dir self0 = output_dir self
             /\ export_cache self0 = PyDict (<[k := p]> d))) ->
    commits w k (Await step).
Set Elimination Schemes.

(** A task of fingerprint [k] that keeps the discipline, or has returned
    a success with the path the dictionary [d] holds under [k]. *)
Definition settled (w : remote) (k : string) (c : coro) (d : gmap string str) : Prop :=
  commits w k c
  \/ exists key p, c = Return (Ok (true, key, Some p)) /\ d !! k = Some p.

(** A step that leaves the cache alone and goes on as a task that keeps
    the discipline. *)
Definition quiet (w : remote) (k : string)
    (step : exporter -> exporter * list event * coro) : Prop :=
  forall self,
    export_cache (step self).1.1 = export_cache self
    /\ cache_file (step self).1.1 = cache_file self
    /\ output_dir (step self).1.1 = output_dir self
    /\ commits w k (step self).2.

(** ** Inputs of the examples *)

(** The name [My/Space: "2024"] of the specification. *)
Definition my_space_2024 : str :=
  of_string ("My/Space: " +:+ String "034" ("2024" +:+ String "034" EmptyString)).

(** The join of [pathlib] for a plain relative directory and a file
    name without separators. *)
Definition in_dir (dir : string) (name : str) : str :=
  of_string dir ++ of_string "/" ++ name.

(** The inventory of the specification: a shared active space, a
    personal one and an archived one. *)
Definition space_A : space :=
  Space "A" (Some (of_string "Alpha")) "global" (Some "current").
Definition space_B : space :=
  Space "B" (Some (of_string "Beta")) "personal" (Some "current").
Definition space_C : space :=
  Space "C" (Some (of_string "Gamma")) "global" (Some "archived").

Definition zeros (n : nat) : bytes := repeat Byte.x00 n.

(** A service that lists the three spaces on one page, exports every
    space under [https://wiki/export/<key>] and answers the [n]-th GET of
    a task with [replies n], on a disk that takes every write. *)
Definition world (replies : nat -> attempt) : remote :=
  Remote (1730000000 # 1)
    (fun _ _ => Ok (Some [space_A; space_B; space_C]))
    (fun k => Ok (Some ("https://wiki/export/" +:+ k)))
    (fun _ n => replies n)
    (fun _ => Writes).

(** A timeout, a 503, then a clean download of five bytes. *)
Definition flaky (n : nat) : attempt :=
  match n with
  | 0%nat => Refused TimeoutError
  | 1%nat => Response 503 NoLength [] None
  | _ => Response 200 (Length 5) [zeros 2; zeros 3] None
  end.

(** Every reply declares 1000 bytes and delivers 500. *)
Definition half (n : nat) : attempt := Response 200 (Length 1000) [zeros 500] None.

(** The same service on a disk where no file can be opened for
    writing. *)
Definition read_only (replies : nat -> attempt) : remote :=
  Remote (1730000000 # 1)
    (fun _ _ => Ok (Some [space_A; space_B; space_C]))
    (fun k => Ok (Some ("https://wiki/export/" +:+ k)))
    (fun _ n => replies n)
    (fun _ => OpenFails).

(** The same service on a disk where only [out/export_cache.json] cannot
    be opened for writing. *)
Definition locked_cache (replies : nat -> attempt) : remote :=
  Remote (1730000000 # 1)
    (fun _ _ => Ok (Some [space_A; space_B; space_C]))
    (fun k => Ok (Some ("https://wiki/export/" +:+ k)))
    (fun _ n => replies n)
    (fun path => if decide (path = of_string "out/export_cache.json") then OpenFails
                 else Writes).

(** A reply whose [content-length] is [-2^1034]. *)
Definition below_float_range (n : nat) : attempt :=
  Response 200 (Length (- 2 ^ 1034)) [zeros 5] None.

(** A first run, without a cache file. *)
Definition fresh : exporter := new_exporter (in_dir "out") Missing ∅.

(** A run that finds [null] in the cache file. *)
Definition nulled : exporter := new_exporter (in_dir "out") (Json PyNone) ∅.

(** A run that finds the fingerprint of space [A] for the day of
    [world] in the cache file. *)
Definition warm : exporter :=
  new_exporter (in_dir "out")
    (Json (PyDict {[ "A_20023" := of_string "out/A_Alpha.html.zip" ]})) ∅.

(** A service whose listing serves [inventory] in pages; every export
    request raises. *)
Definition paged (inventory : list space) : remote :=
  Remote 0
    (fun start limit => Ok (Some (take (Z.to_nat limit) (drop (Z.to_nat start) inventory))))
    (fun _ => Raise OtherError)
    (fun _ _ => Refused OtherError)
    (fun _ => Writes).

(** [n] shared spaces with the keys 0, 1, ... *)
Definition many (n : nat) : list space :=
  map (fun i : nat => Space (pretty i) None "global" None) (seq 0 n).

(** A service whose listing raises. *)
Definition unlisted : remote :=
  Remote 0 (fun _ _ => Raise OtherError) (fun _ => Raise OtherError)
    (fun _ _ => Refused OtherError) (fun _ => Writes).

(** * Properties *)

(** ** The fingerprint *)

Lemma int_of_float_floor (x : Q) : (0 <= x)%Q -> int_of_float x = Qfloor x.
Proof.
  destruct x as [n d]. unfold Qle, int_of_float, Qfloor. simpl. intros H.
  apply Z.quot_div_nonneg; lia.
Qed.

Lemma day_quotient_nonneg (t : Q) : (0 <= t)%Q -> (0 <= t / day)%Q.
Proof.
  intros H. apply Qle_shift_div_l; [reflexivity|]. now rewrite Qmult_0_l.
Qed.

(** The bucket of [t] is the [n] with [86400 n <= t < 86400 (n + 1)]. *)
Lemma floor_bucket (t : Q) (n : Z) :
  (inject_Z (86400 * n) <= t)%Q -> (t < inject_Z (86400 * (n + 1)))%Q ->
  Qfloor (t / day) = n.
Proof.
  intros Hlo Hhi.
  assert (Hd : (0 < day)%Q) by reflexivity.
  assert (H1 : (inject_Z n <= t / day)%Q).
  { apply Qle_shift_div_l; [done|]. unfold day. rewrite <- inject_Z_mult.
    by replace (n * (3600 * 24)) with (86400 * n) by lia. }
  assert (H2 : (t / day < inject_Z (n + 1))%Q).
  { apply Qlt_shift_div_r; [done|]. unfold day. rewrite <- inject_Z_mult.
    by replace ((n + 1) * (3600 * 24)) with (86400 * (n + 1)) by lia. }
  apply Z.le_antisymm.
  - apply Z.lt_succ_r. rewrite <- Z.add_1_r. rewrite Zlt_Qlt.
    eapply Qle_lt_trans; [apply Qfloor_le|done].
  - rewrite <- (Qfloor_Z n). by apply Qfloor_resp_le.
Qed.

(** C9. For a time [t >= 0] the fingerprint of a key is the key, an
    underscore and the decimal numeral of [floor (t / 86400)]; two
    non-negative times give the same fingerprint for a key exactly when
    they lie in the same 86400-second bucket. *)
Theorem fingerprint_day_bucket (space_key : string) (t : Q) :
  (0 <= t)%Q ->
  cache_key space_key t = space_key +:+ "_" +:+ pretty (Qfloor (t / day))
  /\ forall t', (0 <= t')%Q ->
       (cache_key space_key t = cache_key space_key t'
        <-> Qfloor (t / day) = Qfloor (t' / day)).
Proof.
  intros Ht. unfold cache_key. fold day.
  rewrite (int_of_float_floor _ (day_quotient_nonneg t Ht)). split; [done|].
  intros t' Ht'. rewrite (int_of_float_floor _ (day_quotient_nonneg t' Ht')).
  split.
  - intros H. apply (inj (String.append space_key)) in H.
    apply (inj (String.append "_")) in H. by apply (inj pretty) in H.
  - by intros ->.
Qed.

Lemma fingerprint_day_bucket_witness :
  (0 <= 1730000000 # 1)%Q
  /\ cache_key "DEV" (1730000000 # 1)
     = "DEV" +:+ "_" +:+ pretty (Qfloor ((1730000000 # 1) / day)).
Proof.
  split; [done|]. apply (fingerprint_day_bucket "DEV" (1730000000 # 1)). done.
Defined.

Example fingerprint_same_day :
  cache_key "DEV" (1730000000 # 1) = "DEV_20023"
  /\ cache_key "DEV" (3460000001 # 2) = "DEV_20023"
  /\ cache_key "DEV" (1730073600 # 1) = "DEV_20024".
Proof. by vm_compute. Qed.

(** ** The sanitiser *)

Lemma safe_name_length (space_name : str) :
  length (safe_name space_name) = length space_name.
Proof. apply length_map. Qed.

Lemma safe_name_get (space_name : str) (i : nat) :
  safe_name space_name !! i = safe_char <$> space_name !! i.
Proof. apply list_lookup_fmap. Qed.

Lemma kept_underscore : kept (N_of_ascii "_") = true.
Proof. by vm_compute. Qed.

Lemma safe_char_kept (c : N) : kept (safe_char c) = true.
Proof.
  unfold safe_char. fold (kept c). destruct (kept c) eqn:E; [done|].
  apply kept_underscore.
Qed.

Lemma safe_name_kept (space_name : str) :
  string_forall kept (safe_name space_name) = true.
Proof.
  unfold string_forall, safe_name. apply forallb_forall.
  intros c (c0 & <- & _)%in_map_iff. apply safe_char_kept.
Qed.

Lemma ascii_class_underscore : in_ascii_class (N_of_ascii "_") = true.
Proof. by vm_compute. Qed.

Lemma safe_char_ascii (c : N) :
  alnum_is_ascii c = true -> in_ascii_class (safe_char c) = true.
Proof.
  unfold alnum_is_ascii, safe_char. intros H.
  destruct (isalnum c) eqn:Ea; cbn [orb implb] in *.
  - unfold in_ascii_class. by rewrite H.
  - destruct (char_in c (of_string "._- ")) eqn:Ec.
    + unfold in_ascii_class. rewrite Ec. apply orb_true_r.
    + apply ascii_class_underscore.
Qed.

(** C8, as amended. For every name, a sequence of code points: the
    sanitised name has the length of the name; its [i]-th character is
    the [i]-th character of the name if that one is alphanumeric in
    Python's sense ([str.isalnum], Unicode) or one of [._- ], and an
    underscore otherwise; it holds no other characters; for a name
    without alphanumerics outside ASCII these are the characters of
    [[A-Za-z0-9._- ]]; and the file name is the key, an underscore, the
    sanitised name and [.html.zip]. *)
Theorem safe_name_spec (space_key space_name : str) :
  length (safe_name space_name) = length space_name
  /\ (forall i, safe_name space_name !! i
                = (fun c => if kept c then c else N_of_ascii "_") <$> space_name !! i)
  /\ string_forall kept (safe_name space_name) = true
  /\ (string_forall alnum_is_ascii space_name = true ->
      string_forall in_ascii_class (safe_name space_name) = true)
  /\ output_name space_key space_name
     = space_key ++ of_string "_" ++ safe_name space_name ++ of_string ".html.zip".
Proof.
  split; [apply safe_name_length|].
  split; [apply safe_name_get|].
  split; [apply safe_name_kept|].
  split; [|reflexivity].
  unfold string_forall, safe_name. rewrite !forallb_forall.
  intros Hall c (c0 & <- & Hin)%in_map_iff. apply safe_char_ascii. by apply Hall.
Qed.

Lemma safe_name_spec_witness :
  string_forall alnum_is_ascii my_space_2024 = true
  /\ string_forall in_ascii_class (safe_name my_space_2024) = true.
Proof.
  split; [by vm_compute|].
  apply (safe_name_spec (of_string "DEV") my_space_2024). by vm_compute.
Defined.

Example safe_name_my_space :
  output_name (of_string "DEV") my_space_2024 = of_string "DEV_My_Space_ _2024_.html.zip".
Proof. by vm_compute. Qed.

(** C8, as stated, fails: the names U+00E9 (e with acute) and U+4E2D
    U+6587 (two CJK ideographs) are alphanumeric for [str.isalnum], are
    kept as they are, and are not in [[A-Za-z0-9._- ]]. *)
Lemma safe_name_keeps_letters_outside_ascii :
  safe_name [233%N] = [233%N]
  /\ string_forall in_ascii_class (safe_name [233%N]) = false
  /\ safe_name [20013%N; 25991%N] = [20013%N; 25991%N]
  /\ string_forall in_ascii_class (safe_name [20013%N; 25991%N]) = false.
Proof. by vm_compute. Qed.

(** ** Writing the output file *)

Lemma write_chunks_split (chunks : list bytes) :
  write_chunks chunks [] 0 = (body chunks, downloaded chunks).
Proof. unfold body, downloaded. by destruct (write_chunks chunks [] 0). Qed.

(** [store] when [open] and the writes go through. *)
Lemma store_written (w : remote) (self : exporter) (path : str) (chunks : list bytes) :
  written w path chunks = true ->
  store w self path chunks = (write_archive self path (body chunks), downloaded chunks, true).
Proof.
  unfold written, store. rewrite write_chunks_split.
  destruct (disk w path) as [| |n]; [done..|].
  intros H%bool_decide_eq_true. by rewrite H.
Qed.

(** [store] when one of them raises. *)
Lemma store_failed (w : remote) (self : exporter) (path : str) (chunks : list bytes) :
  written w path chunks = false ->
  store w self path chunks = ((store w self path chunks).1.1, 0, false).
Proof.
  unfold written, store. destruct (disk w path) as [| |n]; [done..|].
  intros H%bool_decide_eq_false. by destruct (write_until n chunks []).
Qed.

Lemma store_cache (w : remote) (self : exporter) (path : str) (chunks : list bytes) :
  export_cache (store w self path chunks).1.1 = export_cache self
  /\ cache_file (store w self path chunks).1.1 = cache_file self
  /\ output_dir (store w self path chunks).1.1 = output_dir self.
Proof.
  unfold store. rewrite write_chunks_split.
  destruct (disk w path) as [| |n]; [done..|]. by destruct (write_until n chunks []).
Qed.


Lemma after_attempt_cache (w : remote) (self : exporter) (path : str) (a : attempt) :
  export_cache (after_attempt w self path a) = export_cache self
  /\ cache_file (after_attempt w self path a) = cache_file self
  /\ output_dir (after_attempt w self path a) = output_dir self.
Proof.
  destruct a as [|status h chunks tail]; cbn [after_attempt]; [done|].
  destruct (status =? 200); [|done].
  destruct h; try done; destruct (overflows _); try done; apply store_cache.
Qed.

Lemma after_attempt_export_cache (w : remote) (self : exporter) (path : str) (a : attempt) :
  export_cache (after_attempt w self path a) = export_cache self.
Proof. apply after_attempt_cache. Qed.

Lemma after_attempt_cache_file (w : remote) (self : exporter) (path : str) (a : attempt) :
  cache_file (after_attempt w self path a) = cache_file self.
Proof. apply after_attempt_cache. Qed.


Lemma attempts_app (l1 l2 : list event) : attempts (l1 ++ l2) = (attempts l1 + attempts l2)%nat.
Proof. unfold attempts. by rewrite List.filter_app, length_app. Qed.

(** The effect of [_save_cache] on the exporter. *)
Lemma save_cache_spec (w : remote) (self : exporter) :
  export_cache (_save_cache w self) = export_cache self
  /\ output_dir (_save_cache w self) = output_dir self
  /\ archives (_save_cache w self) = archives self
  /\ cache_file (_save_cache w self)
     = match disk w (cache_path self) with
       | Writes => Json (export_cache self)
       | OpenFails => cache_file self
       | WriteFails _ => Corrupt
       end.
Proof. unfold _save_cache. by destruct (disk w (cache_path self)). Qed.

Lemma save_cache_export_cache (w : remote) (self : exporter) :
  export_cache (_save_cache w self) = export_cache self.
Proof. apply save_cache_spec. Qed.

Lemma save_cache_idem (w : remote) (self : exporter) :
  _save_cache w (_save_cache w self) = _save_cache w self.
Proof.
  unfold _save_cache, cache_path.
  destruct (disk w (output_dir self (of_string "export_cache.json"))) eqn:E;
    cbn [output_dir export_cache cache_file archives]; by rewrite ?E.
Qed.

Lemma save_cache_output_dir (w : remote) (self : exporter) :
  output_dir (_save_cache w self) = output_dir self.
Proof. apply save_cache_spec. Qed.

Lemma committed_cache (w : remote) (self : exporter) (d : gmap string str) (k : string)
    (path : str) (content : bytes) :
  export_cache (committed w self d k path content) = PyDict (<[k := path]> d)
  /\ cache_file (committed w self d k path content)
     = match disk w (cache_path self) with
       | Writes => Json (PyDict (<[k := path]> d))
       | OpenFails => cache_file self
       | WriteFails _ => Corrupt
       end.
Proof.
  unfold committed. destruct (save_cache_spec w
    (cache_insert (write_archive self path content) d k path)) as (-> & _ & _ & ->).
  done.
Qed.

(** ** The download loop of the asyncio exporter *)

Section download_facts.
Variable w : remote.
Variables space_key export_url : string.
Variable output_file : str.
Variable cache_key : string.
Variable d : gmap string str.

Local Abbreviation loop := (download_loop w space_key export_url output_file cache_key d).

(** One iteration of the loop, by the kind of the reply. *)
Lemma loop_step (left : nat) (retry_count : Z) (self : exporter) (log : list event) :
  retry_count < max_retries ->
  loop (S left) retry_count self log
  = let a := http_get w export_url (Z.to_nat retry_count) in
    let self' := after_attempt w self output_file a in
    if write_fails w output_file a
    then (Ok (failed space_key), self', log ++ [Get export_url])
    else if transient a then
      if retry_count + 1 <? max_retries
      then loop left (retry_count + 1) self'
             (log ++ [Get export_url; Sleep (retry_delay (retry_count + 1))])
      else (Ok (failed space_key), self', log ++ [Get export_url])
    else if complete a then
      (Ok (true, space_key, Some output_file),
       _save_cache w (cache_insert self' d cache_key output_file),
       log ++ [Get export_url])
    else (Ok (failed space_key), self', log ++ [Get export_url]).
Proof.
  intros Hrc. cbn [download_loop]. cbn zeta.
  destruct (Z.ltb_spec retry_count max_retries) as [_|]; [|lia].
  destruct (http_get w export_url (Z.to_nat retry_count))
    as [e|status h chunks tail]; cbn [transient complete after_attempt write_fails].
  { destruct (retried e); by rewrite <- ?app_assoc. }
  destruct (status =? 200); cbn [negb andb]; [|by rewrite <- app_assoc].
  destruct h as [|n|]; [| |by destruct tail].
  - cbn [total_size]. change (overflows 0) with false. cbn [negb andb].
    destruct (written w output_file chunks) eqn:Hw; cbn [negb].
    + rewrite store_written by done. cbn [negb fst snd].
      destruct tail as [e|]; [destruct (retried e); by rewrite <- ?app_assoc|].
      unfold falls_short. cbn [total_size]. change (0 <? 0) with false. by cbn [andb negb].
    + rewrite store_failed by done. by cbn [negb retried fst snd].
  - cbn [total_size]. destruct (overflows n); cbn [negb andb retried]; [by destruct tail|].
    destruct (written w output_file chunks) eqn:Hw; cbn [negb].
    + rewrite store_written by done. cbn [negb fst snd].
      destruct tail as [e|]; [destruct (retried e); by rewrite <- ?app_assoc|].
      unfold falls_short. cbn [total_size].
      destruct ((0 <? n) && (downloaded chunks <? n)); cbn [negb]; by rewrite <- ?app_assoc.
    + rewrite store_failed by done. by cbn [negb retried fst snd].
Qed.

(** One iteration on a transient failure. *)
Lemma loop_transient (left : nat) (retry_count : Z) (self : exporter) (log : list event) :
  retry_count < max_retries ->
  write_fails w output_file (http_get w export_url (Z.to_nat retry_count)) = false ->
  transient (http_get w export_url (Z.to_nat retry_count)) = true ->
  loop (S left) retry_count self log
  = let self :=
      after_attempt w self output_file (http_get w export_url (Z.to_nat retry_count)) in
    if retry_count + 1 <? max_retries
    then loop left (retry_count + 1) self
           (log ++ [Get export_url; Sleep (retry_delay (retry_count + 1))])
    else (Ok (failed space_key), self, log ++ [Get export_url]).
Proof. intros Hrc Hw Ha. rewrite loop_step by done. cbn zeta. by rewrite Hw, Ha. Qed.



(** One iteration on any other failure, or when the output file cannot
    be written: the outer [except] ends the task. *)
Lemma loop_fatal (left : nat) (retry_count : Z) (self : exporter) (log : list event) :
  retry_count < max_retries ->
  write_fails w output_file (http_get w export_url (Z.to_nat retry_count)) = true
  \/ (transient (http_get w export_url (Z.to_nat retry_count)) = false
      /\ complete (http_get w export_url (Z.to_nat retry_count)) = false) ->
  loop (S left) retry_count self log
  = (Ok (failed space_key),
     after_attempt w self output_file (http_get w export_url (Z.to_nat retry_count)),
     log ++ [Get export_url]).
Proof.
  intros Hrc H. rewrite loop_step by done. cbn zeta.
  destruct H as [->|[-> ->]]; [done|]. by destruct (write_fails _ _ _).
Qed.

(** A loop that ends in success ended on a clean download that was
    written, after as many attempts as the index of that download plus
    one. *)
Lemma loop_success (left : nat) (retry_count : Z) (self self' : exporter)
    (log log' : list event) (k : string) (p : option str) :
  0 <= retry_count ->
  attempts log = Z.to_nat retry_count ->
  loop left retry_count self log = (Ok (true, k, p), self', log') ->
  exists m, attempts log' = S m /\ complete (http_get w export_url m) = true
    /\ write_fails w output_file (http_get w export_url m) = false.
Proof.
  revert retry_count self log.
  induction left as [|left IH]; intros rc self log Hrc Hlog; [done|].
  destruct (Z.ltb_spec rc max_retries) as [Hlt|Hge].
  2:{ cbn [download_loop]. destruct (Z.ltb_spec rc max_retries); [lia|done]. }
  rewrite loop_step by done. cbn zeta.
  destruct (write_fails w output_file _) eqn:Hw; [done|].
  destruct (transient _) eqn:Ht.
  - destruct (rc + 1 <? max_retries); [|done].
    apply IH; [lia|]. rewrite attempts_app, Hlog. cbn. lia.
  - destruct (complete _) eqn:Hc; [|done].
    intros [= <- <- <- <-]. exists (Z.to_nat rc).
    rewrite attempts_app, Hlog. split; [cbn; lia|done].
Qed.

(** The loop leaves the cache as it is unless it succeeds. *)
Lemma loop_failed_cache (left : nat) (retry_count : Z) (self self' : exporter)
    (log log' : list event) (k : string) (p : option str) :
  loop left retry_count self log = (Ok (false, k, p), self', log') ->
  export_cache self' = export_cache self /\ cache_file self' = cache_file self.
Proof.
  revert retry_count self log.
  induction left as [|left IH]; intros rc self log; [by intros [= <- <- <-]|].
  destruct (Z.ltb_spec rc max_retries) as [Hlt|Hge].
  2:{ cbn [download_loop]. destruct (Z.ltb_spec rc max_retries); [lia|].
      by intros [= <- <- <-]. }
  pose proof (after_attempt_cache w self output_file (http_get w export_url (Z.to_nat rc)))
    as (E1 & E2 & _).
  rewrite loop_step by done. cbn zeta.
  destruct (write_fails w output_file _); [by intros [= <- <- <-]|].
  destruct (transient _).
  - destruct (rc + 1 <? max_retries).
    + intros H%IH. by rewrite <- E1, <- E2.
    + by intros [= <- <- <-].
  - destruct (complete _); [done|]. by intros [= <- <- <-].
Qed.

(** The loop ends in a success with a commit, or in a failure. *)
Lemma loop_outcome (left : nat) (retry_count : Z) (self self' : exporter)
    (log log' : list event) (r : res outcome) :
  loop left retry_count self log = (r, self', log') ->
  (r = Ok (true, space_key, Some output_file)
   /\ export_cache self' = PyDict (<[cache_key := output_file]> d))
  \/ r = Ok (failed space_key).
Proof.
  revert retry_count self log.
  induction left as [|left IH]; intros rc self log; [intros [= <- <- <-]; by right|].
  destruct (Z.ltb_spec rc max_retries) as [Hlt|Hge].
  2:{ cbn [download_loop]. destruct (Z.ltb_spec rc max_retries); [lia|].
      intros [= <- <- <-]; by right. }
  rewrite loop_step by done. cbn zeta.
  destruct (write_fails w output_file _); [intros [= <- <- <-]; by right|].
  destruct (transient _).
  - destruct (rc + 1 <? max_retries); [apply IH|intros [= <- <- <-]; by right].
  - destruct (complete _); intros [= <- <- <-]; [left|by right].
    split; [done|]. apply save_cache_spec.
Qed.

(** The loop adds downloads and waits to the log, nothing else. *)
Lemma loop_log (left : nat) (retry_count : Z) (self self' : exporter)
    (log log' : list event) (r : res outcome) :
  loop left retry_count self log = (r, self', log') ->
  exists l, log' = log ++ l /\ forall k, ExportRequest k ∉ l.
Proof.
  revert retry_count self log.
  assert (Hnil : forall log : list event,
             exists l : list event, log = log ++ l /\ forall k, ExportRequest k ∉ l).
  { intros log. exists []. split; [by rewrite app_nil_r|]. intros k. apply not_elem_of_nil. }
  assert (Hget : forall log : list event,
             exists l, log ++ [Get export_url] = log ++ l /\ forall k, ExportRequest k ∉ l).
  { intros log. eexists. split; [done|]. intros k. set_solver. }
  induction left as [|left IH]; intros rc self log; [intros [= <- <- <-]; apply Hnil|].
  destruct (Z.ltb_spec rc max_retries) as [Hlt|Hge].
  2:{ cbn [download_loop]. destruct (Z.ltb_spec rc max_retries); [lia|].
      intros [= <- <- <-]; apply Hnil. }
  rewrite loop_step by done. cbn zeta.
  destruct (write_fails w output_file _); [intros [= <- <- <-]; apply Hget|].
  destruct (transient _).
  - destruct (rc + 1 <? max_retries); [|intros [= <- <- <-]; apply Hget].
    intros (l & -> & Hl)%IH. eexists. split; [by rewrite <- app_assoc|].
    intros k. specialize (Hl k). set_solver.
  - destruct (complete _); intros [= <- <- <-]; apply Hget.
Qed.
End download_facts.

(** ** The export task *)

Lemma usable_url_truthy (url : string) :
  url <> EmptyString -> usable_url (Some url) = Some url.
Proof. by destruct url. Qed.

Section export_task.
Variable w : remote.
Variable self : exporter.
Variable sp : space.
Variable d : gmap string str.
Variable url : string.

Local Abbreviation key := (s_key sp).
Local Abbreviation fingerprint := (cache_key (s_key sp) (time_time w)).
Local Abbreviation target :=
  (output_file self (s_key sp) (default (of_string (s_key sp)) (s_name sp))).

(** The task got past the cache check and was given a URL. *)
Hypothesis cache_loaded : export_cache self = PyDict d.
Hypothesis cache_miss : d !! fingerprint = None.
Hypothesis url_given : get_space_export w key = Ok (Some url).
Hypothesis url_truthy : url <> EmptyString.

Lemma export_space_async_download :
  export_space_async w self sp
  = download w key url target fingerprint d self [ExportRequest key].
Proof.
  unfold export_space_async.
  by rewrite cache_loaded, cache_miss, url_given, usable_url_truthy by done.
Qed.


(** The asyncio exporter after three attempts of which the first two
    failed transiently. *)
Lemma export_space_async_third_attempt :
  write_fails w target (http_get w url 0) = false ->
  write_fails w target (http_get w url 1) = false ->
  transient (http_get w url 0) = true ->
  transient (http_get w url 1) = true ->
  export_space_async w self sp
  = download_loop w key url target fingerprint d 1 2
      (after_attempt w (after_attempt w self target (http_get w url 0)) target
         (http_get w url 1))
      [ExportRequest key; Get url; Sleep 10; Get url; Sleep 20].
Proof.
  intros W0 W1 H0 H1. rewrite export_space_async_download. unfold download.
  change (Z.to_nat max_retries) with 3%nat.
  rewrite loop_transient by done. cbn zeta.
  change (0 + 1 <? max_retries) with true. cbn iota.
  rewrite loop_transient by done. cbn zeta.
  reflexivity.
Qed.

End export_task.




Lemma complete_inv (a : attempt) :
  complete a = true ->
  exists h chunks, a = Response 200 h chunks None
    /\ ~ (0 < total_size h /\ downloaded chunks < total_size h).
Proof.
  destruct a as [|st h ch [|]]; try done. cbn [complete].
  intros [Hs Hh]%andb_prop. apply Z.eqb_eq in Hs as ->.
  exists h, ch. split; [done|].
  destruct h; try done; apply andb_prop in Hh as [_ Hh];
    apply negb_true_iff in Hh; unfold falls_short in Hh;
    intros [H1 H2]; apply Z.ltb_lt in H1, H2; by rewrite H1, H2 in Hh.
Qed.

Lemma short_is_transient (n : Z) (chunks : list bytes) :
  0 < n -> overflows n = false -> downloaded chunks < n ->
  transient (Response 200 (Length n) chunks None) = true.
Proof.
  intros H1 Ho H2. cbn. rewrite Ho. unfold falls_short. cbn [total_size negb andb].
  apply andb_true_intro. split; by apply Z.ltb_lt.
Qed.

Lemma short_after_attempt (w : remote) (self : exporter) (path : str) (n : Z)
    (chunks : list bytes) :
  overflows n = false -> written w path chunks = true ->
  after_attempt w self path (Response 200 (Length n) chunks None)
  = write_archive self path (body chunks)
  /\ write_fails w path (Response 200 (Length n) chunks None) = false.
Proof.
  intros Ho Hw. cbn. rewrite Ho, Hw. by rewrite store_written.
Qed.

(** C2, as amended. In the asyncio exporter, with [target] the path of
    the output file: an attempt whose reply has status 200, declares
    [n > 0] bytes, with [n] below [2^1034 - 2^980], and ends after fewer,
    the file having taken the writes, leaves the partial file, counts as a
    failed attempt, and is followed by a wait of [5 * 2 ^ retry_count]
    seconds and a new attempt if fewer than three attempts were made, by a
    failed outcome otherwise; a reply that declares a size of
    [2^1034 - 2^980] or more ends the task as a failure at once, before the
    file is opened; a successful outcome after a download was reached on a
    reply that missed no declared size; and three short replies as above
    give a failure after three attempts, without a cache commit. *)
Theorem incomplete_transfer_is_attempt_failure (w : remote) (self : exporter) (sp : space)
    (d : gmap string str) (url : string) :
  export_cache self = PyDict d ->
  d !! cache_key (s_key sp) (time_time w) = None ->
  get_space_export w (s_key sp) = Ok (Some url) ->
  url <> EmptyString ->
  let fingerprint := cache_key (s_key sp) (time_time w) in
  let target := output_file self (s_key sp) (default (of_string (s_key sp)) (s_name sp)) in
  (forall left retry_count self0 log n chunks,
      0 <= retry_count < max_retries ->
      http_get w url (Z.to_nat retry_count) = Response 200 (Length n) chunks None ->
      0 < n < 2 ^ 1034 - 2 ^ 980 -> downloaded chunks < n ->
      written w target chunks = true ->
      download_loop w (s_key sp) url target fingerprint d (S left) retry_count self0 log
      = if retry_count + 1 <? max_retries
        then download_loop w (s_key sp) url target fingerprint d left (retry_count + 1)
               (write_archive self0 target (body chunks))
               (log ++ [Get url; Sleep (retry_delay (retry_count + 1))])
        else (Ok (false, s_key sp, None), write_archive self0 target (body chunks),
              log ++ [Get url]))
  /\ (forall left retry_count self0 log n chunks tail,
      0 <= retry_count < max_retries ->
      http_get w url (Z.to_nat retry_count) = Response 200 (Length n) chunks tail ->
      2 ^ 1034 - 2 ^ 980 <= n ->
      download_loop w (s_key sp) url target fingerprint d (S left) retry_count self0 log
      = (Ok (false, s_key sp, None), self0, log ++ [Get url]))
  /\ (forall self' log p,
      export_space_async w self sp = (Ok (true, s_key sp, p), self', log) ->
      exists m h chunks,
        attempts log = S m
        /\ http_get w url m = Response 200 h chunks None
        /\ ~ (0 < total_size h /\ downloaded chunks < total_size h))
  /\ ((forall i, (i < 3)%nat -> exists n chunks,
         http_get w url i = Response 200 (Length n) chunks None
         /\ 0 < n < 2 ^ 1034 - 2 ^ 980 /\ downloaded chunks < n
         /\ written w target chunks = true) ->
      exists self',
        export_space_async w self sp
        = (Ok (false, s_key sp, None), self',
           [ExportRequest (s_key sp); Get url; Sleep 10; Get url; Sleep 20; Get url])
        /\ export_cache self' = export_cache self
        /\ cache_file self' = cache_file self).
Proof.
  intros Hc Hm Hu Hn fingerprint target. subst fingerprint target.
  assert (Hsmall : forall n, 0 < n < 2 ^ 1034 - 2 ^ 980 -> overflows n = false).
  { intros n Hn'. unfold overflows. apply Z.leb_gt. lia. }
  split; [|split; [|split]].
  - intros left rc self0 log n chunks Hrc Hget H1 H2 Hw.
    destruct (short_after_attempt w self0
                (output_file self (s_key sp) (default (of_string (s_key sp)) (s_name sp)))
                n chunks (Hsmall n H1) Hw) as [Ea Ef].
    rewrite loop_transient; rewrite ?Hget; [|lia|done|].
    + cbn zeta. by rewrite Ea.
    + apply short_is_transient; [lia|by apply Hsmall|done].
  - intros left rc self0 log n chunks tail Hrc Hget Hbig.
    assert (Ho : overflows n = true).
    { unfold overflows. apply Z.leb_le. lia. }
    rewrite loop_fatal; rewrite ?Hget; [|lia|].
    + cbn [after_attempt total_size]. by rewrite Ho.
    + right. cbn [transient complete total_size]. rewrite Ho. by destruct tail.
  - intros self' log p. rewrite (export_space_async_download w self sp d url) by done.
    unfold download. intros (m & Hlog & Hcomplete & _)%loop_success; [|done..].
    apply complete_inv in Hcomplete as (h & chunks & Hget & Hsize).
    by exists m, h, chunks.
  - intros Hshort.
    assert (Ht : forall i, (i < 3)%nat ->
              transient (http_get w url i) = true
              /\ write_fails w
                   (output_file self (s_key sp) (default (of_string (s_key sp)) (s_name sp)))
                   (http_get w url i) = false).
    { intros i (n & chunks & -> & H1 & H2 & Hw)%Hshort. split.
      - apply short_is_transient; [lia|by apply Hsmall|done].
      - by apply (short_after_attempt w self _ n chunks (Hsmall n H1)). }
    rewrite (export_space_async_third_attempt w self sp d url)
      by (try apply Ht; done || lia).
    rewrite loop_transient; [|done|apply (Ht 2%nat); lia..]. cbn zeta.
    change (2 + 1 <? max_retries) with false. cbn iota.
    eexists. split; [reflexivity|].
    by rewrite !after_attempt_export_cache, !after_attempt_cache_file.
Qed.

Lemma incomplete_transfer_is_attempt_failure_witness :
  exists self',
    export_space_async (world half) fresh space_A
    = (Ok (false, "A", None), self',
       [ExportRequest "A"; Get "https://wiki/export/A"; Sleep 10;
        Get "https://wiki/export/A"; Sleep 20; Get "https://wiki/export/A"])
    /\ cache_file self' = Missing.
Proof.
  destruct (incomplete_transfer_is_attempt_failure (world half) fresh space_A ∅
              "https://wiki/export/A" eq_refl eq_refl eq_refl ltac:(discriminate))
    as (_ & _ & _ & H).
  destruct H as (self' & E & _ & F).
  - intros i _. exists 1000, [zeros 500]. repeat split; by vm_compute.
  - exists self'. split; [exact E|exact F].
Defined.

(** C2, as stated, fails for the thread-pool exporter: a reply that
    declares 1000 bytes and delivers 500 is a success and is committed. *)
Lemma thread_pool_accepts_short_download :
  half 0 = Response 200 (Length 1000) [zeros 500] None
  /\ downloaded [zeros 500] = 500
  /\ exists self',
       export_space_sync (world half) fresh space_A
       = (Ok (true, "A", Some (of_string "out/A_Alpha.html.zip")), self',
          [ExportRequest "A"; Get "https://wiki/export/A"])
       /\ cache_file self'
          = Json (PyDict {[ "A_20023" := of_string "out/A_Alpha.html.zip" ]}).
Proof. split; [done|]. split; [done|]. eexists. split; [reflexivity|by vm_compute]. Qed.

(** ** Cache hits *)

Lemma export_space_sync_hit (w : remote) (self : exporter) (sp : space)
    (d : gmap string str) (path : str) :
  export_cache self = PyDict d ->
  d !! cache_key (s_key sp) (time_time w) = Some path ->
  export_space_sync w self sp = (Ok (true, s_key sp, Some path), self, []).
Proof. intros Hc Hp. unfold export_space_sync. by rewrite Hc, Hp. Qed.

Lemma export_space_async_hit (w : remote) (self : exporter) (sp : space)
    (d : gmap string str) (path : str) :
  export_cache self = PyDict d ->
  d !! cache_key (s_key sp) (time_time w) = Some path ->
  export_space_async w self sp = (Ok (true, s_key sp, Some path), self, []).
Proof. intros Hc Hp. unfold export_space_async. by rewrite Hc, Hp. Qed.

(** C7. When the cache holds the fingerprint of a space, the export
    task of either exporter returns success with the cached path, leaves
    the exporter as it is and makes no export request, no download and no
    other logged call. *)
Theorem cache_hit_makes_no_network_call (w : remote) (self : exporter) (sp : space)
    (d : gmap string str) (path : str) :
  export_cache self = PyDict d ->
  d !! cache_key (s_key sp) (time_time w) = Some path ->
  export_space_sync w self sp = (Ok (true, s_key sp, Some path), self, [])
  /\ export_space_async w self sp = (Ok (true, s_key sp, Some path), self, []).
Proof.
  intros Hc Hp. split.
  - by apply export_space_sync_hit with d.
  - by apply export_space_async_hit with d.
Qed.

Lemma cache_hit_makes_no_network_call_witness :
  export_space_sync (world flaky) warm space_A
  = (Ok (true, "A", Some (of_string "out/A_Alpha.html.zip")), warm, [])
  /\ export_space_async (world flaky) warm space_A
     = (Ok (true, "A", Some (of_string "out/A_Alpha.html.zip")), warm, []).
Proof.
  apply (cache_hit_makes_no_network_call (world flaky) warm space_A
           {[ "A_20023" := of_string "out/A_Alpha.html.zip" ]}
           (of_string "out/A_Alpha.html.zip")).
  - reflexivity.
  - by vm_compute.
Defined.

(** ** What a task can return and log *)

Lemma export_space_sync_outcome (w : remote) (self self' : exporter) (sp : space)
    (r : res outcome) (log : list event) :
  export_space_sync w self sp = (r, self', log) ->
  (export_cache self = PyNone /\ r = Raise TypeError /\ self' = self /\ log = [])
  \/ (exists d b p, export_cache self = PyDict d /\ r = Ok (b, s_key sp, p)
      /\ forall k, ExportRequest k ∈ log -> k = s_key sp).
Proof.
  unfold export_space_sync. destruct (export_cache self) as [|d]; [intros [= <- <- <-]; by left|].
  intros H. right. exists d.
  assert (Hreq : forall k, ExportRequest k ∈ [ExportRequest (s_key sp)] -> k = s_key sp)
    by (intros k Hk; set_solver).
  assert (Hreq2 : forall url k,
             ExportRequest k ∈ [ExportRequest (s_key sp); Get url] -> k = s_key sp)
    by (intros url k Hk; set_solver).
  destruct (d !! _) as [path|].
  { injection H as <- <- <-. eexists _, _. split; [done|]. split; [done|]. set_solver. }
  destruct (get_space_export w (s_key sp)) as [u|].
  2:{ injection H as <- <- <-. by eexists _, _. }
  destruct (usable_url u) as [url|].
  2:{ injection H as <- <- <-. by eexists _, _. }
  destruct (http_get w url 0) as [|? ? chunks []];
    try destruct (store w self _ chunks) as [[? ?] []];
    injection H as <- <- <-; eexists _, _; eauto.
Qed.

Lemma export_space_async_outcome (w : remote) (self self' : exporter) (sp : space)
    (r : res outcome) (log : list event) :
  export_space_async w self sp = (r, self', log) ->
  (export_cache self = PyNone /\ r = Raise TypeError /\ self' = self /\ log = [])
  \/ (exists d b p, export_cache self = PyDict d /\ r = Ok (b, s_key sp, p)
      /\ forall k, ExportRequest k ∈ log -> k = s_key sp).
Proof.
  unfold export_space_async. destruct (export_cache self) as [|d]; [intros [= <- <- <-]; by left|].
  intros H. right. exists d.
  assert (Hreq : forall k, ExportRequest k ∈ [ExportRequest (s_key sp)] -> k = s_key sp)
    by (intros k Hk; set_solver).
  destruct (d !! _) as [path|].
  { injection H as <- <- <-. eexists _, _. split; [done|]. split; [done|]. set_solver. }
  destruct (get_space_export w (s_key sp)) as [u|].
  2:{ injection H as <- <- <-. by eexists _, _. }
  destruct (usable_url u) as [url|].
  2:{ injection H as <- <- <-. by eexists _, _. }
  unfold download in H.
  pose proof (loop_log _ _ _ _ _ _ _ _ _ _ _ _ _ H) as (l & -> & Hl).
  apply loop_outcome in H as [[-> _]| ->]; eexists _, _; (split; [done|]); (split; [done|]);
    intros k Hk; specialize (Hl k); set_solver.
Qed.

(** ** The two exporters compared *)




(** A declared size beyond the range of a float separates the two
    exporters too: the thread-pool exporter does not read the header, the
    asyncio exporter fails in its log line, after one request and without
    a wait. *)
Example exporters_differ_on_size_beyond_float :
  export_space_sync (world below_float_range) fresh space_A
  = (Ok (true, "A", Some (of_string "out/A_Alpha.html.zip")),
     (export_space_sync (world below_float_range) fresh space_A).1.2,
     [ExportRequest "A"; Get "https://wiki/export/A"])
  /\ export_space_async (world below_float_range) fresh space_A
     = (Ok (false, "A", None), fresh, [ExportRequest "A"; Get "https://wiki/export/A"]).
Proof. split; by vm_compute. Qed.

(** On a disk where the output file cannot be opened both tasks fail
    after one request, the asyncio task without a retry, and nothing is
    committed. *)
Example unwritable_output_file_fails_at_once :
  export_space_sync (read_only (fun _ => flaky 2)) fresh space_A
  = (Ok (false, "A", None), fresh, [ExportRequest "A"; Get "https://wiki/export/A"])
  /\ export_space_async (read_only (fun _ => flaky 2)) fresh space_A
     = (Ok (false, "A", None), fresh, [ExportRequest "A"; Get "https://wiki/export/A"]).
Proof. split; by vm_compute. Qed.

(** When only the cache file cannot be opened the task still returns a
    success: the entry is in the dictionary and not in the file. *)
Example unwritable_cache_file_is_not_reported :
  let r := export_space_async (locked_cache (fun _ => flaky 2)) fresh space_A in
  r.1.1 = Ok (true, "A", Some (of_string "out/A_Alpha.html.zip"))
  /\ export_cache r.1.2 = PyDict {[ "A_20023" := of_string "out/A_Alpha.html.zip" ]}
  /\ cache_file r.1.2 = Missing
  /\ (export_space_sync (locked_cache (fun _ => flaky 2)) fresh space_A).1.1 = r.1.1
  /\ cache_file (export_space_sync (locked_cache (fun _ => flaky 2)) fresh space_A).1.2
     = Missing.
Proof. repeat split; by vm_compute. Qed.

(** ** Selection *)

(** C6. With an allow-list that is not empty, the spaces to export are
    the discovered spaces whose key is on the list, in the order of
    discovery, whatever their type and status and whatever the two
    inclusion flags. *)
Theorem allow_list_takes_precedence (all_spaces : list space)
    (include_personal include_archived : bool) (specific_spaces : list string) :
  specific_spaces <> [] ->
  select_spaces all_spaces include_personal include_archived (Some specific_spaces)
  = filter (fun sp => s_key sp ∈ specific_spaces) all_spaces.
Proof.
  intros Hne. destruct specific_spaces as [|k ks]; [done|]. unfold select_spaces.
  apply list_filter_iff. intros sp. apply elem_of_list_to_set.
Qed.

Lemma allow_list_takes_precedence_witness :
  select_spaces [space_A; space_B; space_C] false false (Some ["B"; "C"])
  = [space_B; space_C].
Proof.
  rewrite (allow_list_takes_precedence [space_A; space_B; space_C] false false ["B"; "C"]).
  - reflexivity.
  - discriminate.
Defined.

Example default_flags_select_A :
  select_spaces [space_A; space_B; space_C] false false None = [space_A].
Proof. reflexivity. Qed.

Lemma select_spaces_sublist (all_spaces : list space) (ip ia : bool)
    (specific_spaces : option (list string)) (sp : space) :
  sp ∈ select_spaces all_spaces ip ia specific_spaces -> sp ∈ all_spaces.
Proof.
  unfold select_spaces. destruct specific_spaces as [[|k ks]|].
  2:{ by intros [_ H]%list_elem_of_filter. }
  all: induction all_spaces as [|s rest IH]; cbn; [done|];
    repeat case_match; set_solver.
Qed.

(** ** The result loops *)

Lemma collect_sync_total (done : completed) (n : nat) (failed_spaces : list string) :
  ((collect_sync done n failed_spaces).1 + length (collect_sync done n failed_spaces).2
   = n + length failed_spaces + length done)%nat.
Proof.
  revert n failed_spaces.
  induction done as [|[sp [[[[] k] p]|e]] rest IH]; intros n fs; cbn [collect_sync length].
  all: rewrite ?IH, ?length_app; cbn; lia.
Qed.

Lemma collect_async_total (done : list (res outcome)) (n : nat) (failed_spaces : list string) :
  ((collect_async done n failed_spaces).1 + length (collect_async done n failed_spaces).2
   = n + length failed_spaces + length (List.filter returned done))%nat.
Proof.
  revert n failed_spaces.
  induction done as [|[[[[] k] p]|e] rest IH]; intros n fs;
    cbn [collect_async length List.filter returned].
  all: rewrite ?IH, ?length_app; cbn; lia.
Qed.

Lemma collect_sync_failed (done : completed) (n : nat) (failed_spaces : list string) (k : string) :
  Forall own_key done ->
  k ∈ (collect_sync done n failed_spaces).2 ->
  k ∈ failed_spaces \/ k ∈ map (fun c => s_key c.1) done.
Proof.
  revert n failed_spaces.
  induction done as [|[sp r] rest IH]; intros n fs Hown; cbn [collect_sync]; [by left|].
  apply Forall_cons in Hown as [Hsp Hrest].
  destruct r as [[[[] k'] p]|e].
  - intros [H|H]%IH; [by left|right; set_solver|done].
  - rewrite (Hsp false k' p eq_refl). cbn.
    intros [H|H]%IH; [|right; set_solver|done].
    apply elem_of_app in H as [H|H]; [by left|right; set_solver].
  - cbn. intros [H|H]%IH; [|right; set_solver|done].
    apply elem_of_app in H as [H|H]; [by left|right; set_solver].
Qed.

Lemma collect_async_failed (done : completed) (n : nat) (failed_spaces : list string) (k : string) :
  Forall own_key done ->
  k ∈ (collect_async (map snd done) n failed_spaces).2 ->
  k ∈ failed_spaces \/ k ∈ map (fun c => s_key c.1) done.
Proof.
  revert n failed_spaces.
  induction done as [|[sp r] rest IH]; intros n fs Hown; cbn [collect_async map snd]; [by left|].
  apply Forall_cons in Hown as [Hsp Hrest].
  destruct r as [[[[] k'] p]|e].
  - intros [H|H]%IH; [by left|right; set_solver|done].
  - rewrite (Hsp false k' p eq_refl). cbn.
    intros [H|H]%IH; [|right; set_solver|done].
    apply elem_of_app in H as [H|H]; [by left|right; set_solver].
  - cbn. intros [H|H]%IH; [by left|right; set_solver|done].
Qed.

(** ** Running the tasks *)

Section run_facts.
Variable task : exporter -> space -> res outcome * exporter * list event.

(** What both export tasks satisfy: an outcome has the key of the
    space, and so has every export request. *)
Hypothesis task_key : forall self sp r self' log,
  task self sp = (r, self', log) ->
  (forall b k p, r = Ok (b, k, p) -> k = s_key sp)
  /\ (forall k, ExportRequest k ∈ log -> k = s_key sp).

Lemma run_tasks_spec (self self' : exporter) (spaces : list space)
    (done : completed) (log : list event) :
  run_tasks task self spaces = (done, self', log) ->
  map fst done = spaces
  /\ Forall own_key done
  /\ forall k, ExportRequest k ∈ log -> k ∈ map s_key spaces.
Proof.
  revert self done log.
  induction spaces as [|sp rest IH]; intros self done log; cbn [run_tasks].
  - intros [= <- <- <-]. split; [done|]. split; [done|]. intros k H. by apply elem_of_nil in H.
  - destruct (task self sp) as [[r s1] l1] eqn:Et.
    destruct (run_tasks task s1 rest) as [[done' s2] l2] eqn:Er.
    intros [= <- <- <-].
    apply task_key in Et as [Hk Hl]. apply IH in Er as (Hm & Hown & Hlog).
    split; [cbn; by rewrite Hm|]. split.
    + apply Forall_cons. split; [|done]. intros b k p. cbn. apply Hk.
    + intros k [H|H]%elem_of_app; cbn.
      * rewrite (Hl k H). set_solver.
      * specialize (Hlog k H). set_solver.
Qed.
End run_facts.

Lemma export_space_sync_key (w : remote) :
  forall self sp r self' log,
    export_space_sync w self sp = (r, self', log) ->
    (forall b k p, r = Ok (b, k, p) -> k = s_key sp)
    /\ (forall k, ExportRequest k ∈ log -> k = s_key sp).
Proof.
  intros self sp r self' log
    [(_ & -> & _ & ->)|(d & b & p & _ & -> & Hl)]%export_space_sync_outcome.
  - split; [done|]. intros k H. by apply elem_of_nil in H.
  - split; [|done]. by intros ? ? ? [= _ <- _].
Qed.

Lemma export_space_async_key (w : remote) :
  forall self sp r self' log,
    export_space_async w self sp = (r, self', log) ->
    (forall b k p, r = Ok (b, k, p) -> k = s_key sp)
    /\ (forall k, ExportRequest k ∈ log -> k = s_key sp).
Proof.
  intros self sp r self' log
    [(_ & -> & _ & ->)|(d & b & p & _ & -> & Hl)]%export_space_async_outcome.
  - split; [done|]. intros k H. by apply elem_of_nil in H.
  - split; [|done]. by intros ? ? ? [= _ <- _].
Qed.

(** ** Whole runs *)

Lemma export_selected_sync_keys (w : remote) (self : exporter) (all_spaces : list space)
    (ip ia : bool) (specific_spaces : option (list string)) (k : string) :
  k ∈ (export_selected_sync w self all_spaces ip ia specific_spaces).1.1.2
  \/ ExportRequest k ∈ (export_selected_sync w self all_spaces ip ia specific_spaces).2 ->
  k ∈ map s_key (select_spaces all_spaces ip ia specific_spaces).
Proof.
  unfold export_selected_sync.
  destruct (select_spaces all_spaces ip ia specific_spaces) as [|sp rest] eqn:Es.
  { cbn. intros [H|H]; by apply elem_of_nil in H. }
  destruct (run_tasks _ _ _) as [[done self'] log] eqn:Er.
  apply (run_tasks_spec _ (export_space_sync_key w)) in Er as (Hm & Hown & Hlog).
  cbn [fst snd]. intros [H|H]; [|by apply Hlog].
  apply collect_sync_failed in H as [H|H]; [by apply elem_of_nil in H| |done].
  by rewrite <- Hm, <- list_fmap_compose.
Qed.

Lemma export_selected_async_keys (w : remote) (self : exporter) (all_spaces : list space)
    (ip ia : bool) (specific_spaces : option (list string)) (k : string) :
  k ∈ (export_selected_async w self all_spaces ip ia specific_spaces).1.1.2
  \/ ExportRequest k ∈ (export_selected_async w self all_spaces ip ia specific_spaces).2 ->
  k ∈ map s_key (select_spaces all_spaces ip ia specific_spaces).
Proof.
  unfold export_selected_async.
  destruct (select_spaces all_spaces ip ia specific_spaces) as [|sp rest] eqn:Es.
  { cbn. intros [H|H]; by apply elem_of_nil in H. }
  destruct (run_tasks _ _ _) as [[done self'] log] eqn:Er.
  apply (run_tasks_spec _ (export_space_async_key w)) in Er as (Hm & Hown & Hlog).
  cbn [fst snd]. intros [H|H]; [|by apply Hlog].
  apply collect_async_failed in H as [H|H]; [by apply elem_of_nil in H| |done].
  by rewrite <- Hm, <- list_fmap_compose.
Qed.

Lemma select_spaces_keys (all_spaces : list space) (ip ia : bool)
    (specific_spaces : option (list string)) (k : string) :
  k ∈ map s_key (select_spaces all_spaces ip ia specific_spaces) ->
  k ∈ map s_key all_spaces
  /\ forall specific, specific_spaces = Some specific -> specific <> [] -> k ∈ specific.
Proof.
  intros (sp & -> & Hsp)%list_elem_of_fmap. split.
  - apply list_elem_of_fmap. exists sp. split; [done|]. by eapply select_spaces_sublist.
  - intros [|k0 ks] -> Hne; [done|]. unfold select_spaces in Hsp.
    apply list_elem_of_filter in Hsp as [Hk _]. by apply elem_of_list_to_set in Hk.
Qed.

(** C10. With an allow-list that is not empty, a key on the list that no
    discovered space has is passed over by both exporters: it is not on
    the failure list and no export is requested for it.  If none of the
    listed keys is discovered, the run makes no call, returns no success
    and no failure, leaves the exporter as it is, and [main] ends with
    status 0. *)
Theorem undiscovered_keys_are_skipped (w : remote) (self : exporter)
    (all_spaces : list space) (include_personal include_archived : bool)
    (specific_spaces : list string) :
  specific_spaces <> [] ->
  let sync :=
    export_selected_sync w self all_spaces include_personal include_archived
      (Some specific_spaces) in
  let async :=
    export_selected_async w self all_spaces include_personal include_archived
      (Some specific_spaces) in
  (forall k, k ∈ specific_spaces -> k ∉ map s_key all_spaces ->
     k ∉ sync.1.1.2 /\ ExportRequest k ∉ sync.2
     /\ k ∉ async.1.1.2 /\ ExportRequest k ∉ async.2)
  /\ ((forall k, k ∈ specific_spaces -> k ∉ map s_key all_spaces) ->
      sync = ((0%nat, []), self, [])
      /\ async = ((0%nat, []), self, [])
      /\ forall fuel log,
           fetch_all_spaces w fuel 0 [] [] = Some (Ok all_spaces, log) ->
           main_sync w self fuel (Some specific_spaces) include_personal include_archived
           = Some 0
           /\ main_async w self fuel (Some specific_spaces) include_personal include_archived
              = Some 0).
Proof.
  intros Hne sync async. split.
  - intros k Hk Hnot.
    assert (Hsel : k ∉ map s_key (select_spaces all_spaces include_personal
                                    include_archived (Some specific_spaces))).
    { by intros [H _]%select_spaces_keys. }
    repeat split; intros H; apply Hsel.
    + apply (export_selected_sync_keys w self). by left.
    + apply (export_selected_sync_keys w self). by right.
    + apply (export_selected_async_keys w self). by left.
    + apply (export_selected_async_keys w self). by right.
  - intros Hnone.
    assert (Hsel : select_spaces all_spaces include_personal include_archived
                     (Some specific_spaces) = []).
    { destruct (select_spaces _ _ _ _) as [|sp rest] eqn:Es; [done|]. exfalso.
      assert (Hin : s_key sp ∈ map s_key (select_spaces all_spaces include_personal
                                            include_archived (Some specific_spaces))).
      { rewrite Es. set_solver. }
      apply select_spaces_keys in Hin as [Hall Hspec].
      by apply (Hnone (s_key sp)); [apply Hspec|]. }
    assert (Hsel' : select_spaces all_spaces false false (Some specific_spaces) = []).
    { destruct specific_spaces; [done|]. exact Hsel. }
    assert (Hs : sync = ((0%nat, []), self, [])).
    { subst sync. unfold export_selected_sync. by rewrite Hsel. }
    assert (Ha : async = ((0%nat, []), self, [])).
    { subst async. unfold export_selected_async. by rewrite Hsel. }
    split; [done|]. split; [done|].
    intros fuel log Hfetch.
    unfold main_sync, main_async, main, export_all_spaces.
    destruct specific_spaces as [|k0 ks]; [done|].
    rewrite Hfetch. unfold export_selected_sync, export_selected_async.
    by rewrite Hsel'.
Qed.

Lemma undiscovered_keys_are_skipped_witness :
  export_selected_sync (world flaky) fresh [space_A; space_B; space_C] false false
    (Some ["X"; "Y"]) = ((0%nat, []), fresh, [])
  /\ main_async (world flaky) fresh 1 (Some ["X"; "Y"]) false false = Some 0.
Proof.
  destruct (undiscovered_keys_are_skipped (world flaky) fresh [space_A; space_B; space_C]
              false false ["X"; "Y"] ltac:(discriminate)) as [_ H].
  destruct H as (Hs & _ & Hm).
  - intros k Hk Hin. vm_compute in Hin.
    apply elem_of_cons in Hk as [->|Hk]; [|apply elem_of_cons in Hk as [->|Hk]].
    + set_solver.
    + set_solver.
    + by apply elem_of_nil in Hk.
  - split; [exact Hs|]. apply (Hm 1%nat [ListRequest 0 50]). reflexivity.
Defined.

(** ** Completeness of the summary *)

Lemma run_tasks_length (task : exporter -> space -> res outcome * exporter * list event)
    (self : exporter) (spaces : list space) :
  length (run_tasks task self spaces).1.1 = length spaces.
Proof.
  revert self. induction spaces as [|sp rest IH]; intros self; cbn [run_tasks]; [done|].
  destruct (task self sp) as [[r s1] l1].
  specialize (IH s1). destruct (run_tasks task s1 rest) as [[done' s2] l2].
  cbn in *. by rewrite IH.
Qed.

(** The thread-pool exporter accounts for every selected space. *)
Lemma thread_pool_summary_is_complete (w : remote) (self : exporter) (all_spaces : list space)
    (ip ia : bool) (specific_spaces : option (list string)) :
  let s := (export_selected_sync w self all_spaces ip ia specific_spaces).1.1 in
  (s.1 + length s.2 = length (select_spaces all_spaces ip ia specific_spaces))%nat.
Proof.
  unfold export_selected_sync.
  destruct (select_spaces all_spaces ip ia specific_spaces) as [|sp rest]; [done|].
  pose proof (run_tasks_length (export_space_sync w) self (sp :: rest)) as Hlen.
  destruct (run_tasks _ _ _) as [[done self'] log]. cbn [fst snd] in *.
  rewrite collect_sync_total. cbn [length] in *. lia.
Qed.

(** The asyncio exporter accounts for the tasks that returned. *)
Lemma asyncio_summary_counts_returned (w : remote) (self : exporter) (all_spaces : list space)
    (ip ia : bool) (specific_spaces : option (list string)) :
  let s := (export_selected_async w self all_spaces ip ia specific_spaces).1.1 in
  (s.1 + length s.2
   = length (List.filter returned
               (map snd (run_tasks (export_space_async w) self
                           (select_spaces all_spaces ip ia specific_spaces)).1.1)))%nat.
Proof.
  unfold export_selected_async.
  destruct (select_spaces all_spaces ip ia specific_spaces) as [|sp rest]; [done|].
  destruct (run_tasks _ _ _) as [[done self'] log]. cbn [fst snd] in *.
  rewrite collect_async_total. cbn [length]. lia.
Qed.

(** C3 fails for the asyncio exporter. The cache file holds [null], so
    the task of the one selected space raises at the cache check, before
    the [try]; the result loop of the asyncio exporter drops it: no
    success, no failure, exit status 0.  The thread-pool exporter puts the
    key on the failure list and ends with status 1. *)
Theorem asyncio_drops_task_that_raises :
  select_spaces [space_A; space_B; space_C] false false None = [space_A]
  /\ export_space_async (world flaky) nulled space_A = (Raise TypeError, nulled, [])
  /\ export_selected_async (world flaky) nulled [space_A; space_B; space_C] false false None
     = ((0%nat, []), nulled, [])
  /\ main_async (world flaky) nulled 1 None false false = Some 0
  /\ export_selected_sync (world flaky) nulled [space_A; space_B; space_C] false false None
     = ((0%nat, ["A"]), nulled, [])
  /\ main_sync (world flaky) nulled 1 None false false = Some 1.
Proof. repeat split. Qed.

(** ** Re-runs and discovery *)

(** A successful task leaves the fingerprint in the cache, so a second
    task for the same space in the same bucket is a cache hit with the
    same path. *)
Lemma rerun_in_same_bucket_hits_cache (w w' : remote) (self self' : exporter) (sp : space)
    (p : str) (log : list event) :
  cache_key (s_key sp) (time_time w') = cache_key (s_key sp) (time_time w) ->
  (export_space_sync w self sp = (Ok (true, s_key sp, Some p), self', log) ->
   export_space_sync w' self' sp = (Ok (true, s_key sp, Some p), self', []))
  /\ (export_space_async w self sp = (Ok (true, s_key sp, Some p), self', log) ->
      export_space_async w' self' sp = (Ok (true, s_key sp, Some p), self', [])).
Proof.
  intros Hk. split.
  - unfold export_space_sync at 1.
    destruct (export_cache self) as [|d] eqn:Hd; [done|].
    destruct (d !! _) as [path|] eqn:Hp.
    { intros [= <- <-]. apply export_space_sync_hit with d; [done|]. by rewrite Hk. }
    destruct (get_space_export w (s_key sp)) as [u|]; [|done].
    destruct (usable_url u) as [url|]; [|done].
    destruct (http_get w url 0) as [|? ? chunks []]; try done.
    destruct (store w self _ chunks) as [[s1 ?] []]; [|done].
    intros [= <- <- _]. eapply export_space_sync_hit; [by rewrite save_cache_export_cache|].
    rewrite Hk. apply lookup_insert_eq.
  - unfold export_space_async at 1.
    destruct (export_cache self) as [|d] eqn:Hd; [done|].
    destruct (d !! _) as [path|] eqn:Hp.
    { intros [= <- <-]. apply export_space_async_hit with d; [done|]. by rewrite Hk. }
    destruct (get_space_export w (s_key sp)) as [u|]; [|done].
    destruct (usable_url u) as [url|]; [|done].
    intros [[[= <-] Hc]|[=]]%loop_outcome.
    eapply export_space_async_hit; [exact Hc|]. rewrite Hk. apply lookup_insert_eq.
Qed.

(** Discovery ends on the first page that is short, with the pages read
    so far. *)
Lemma fetch_all_spaces_short_page (w : remote) (fuel : nat) (start : Z)
    (all_spaces spaces : list space) (log : list event) :
  get_all_spaces w start limit = Ok (Some spaces) ->
  Z.of_nat (length spaces) < limit ->
  fetch_all_spaces w (S fuel) start all_spaces log
  = Some (Ok (all_spaces ++ spaces), log ++ [ListRequest start limit]).
Proof.
  intros Hpage Hshort. cbn [fetch_all_spaces]. rewrite Hpage.
  destruct spaces as [|sp rest]; [by rewrite app_nil_r|].
  by destruct (Z.ltb_spec (Z.of_nat (length (sp :: rest))) limit); [|lia].
Qed.

Example discovery_of_three_spaces :
  fetch_all_spaces (world flaky) 1 0 [] []
  = Some (Ok [space_A; space_B; space_C], [ListRequest 0 50]).
Proof. reflexivity. Qed.

(** ** Concurrent commits *)

Lemma quiet_commits (w : remote) (k : string)
    (step : exporter -> exporter * list event * coro) :
  quiet w k step -> commits w k (Await step).
Proof.
  intros H. constructor. intros self d Hd. left.
  destruct (H self) as (E1 & E2 & E3 & Hc). rewrite E1. auto.
Qed.

Section coroutine_facts.
Variable w : remote.
Variables space_key export_url : string.
Variable output_file : str.
Variable cache_key : string.

Local Abbreviation fail :=
  (fun self : exporter => (self, @nil event, Return (Ok (failed space_key)))).

Lemma fail_quiet : quiet w cache_key fail.
Proof. intros self. cbn. repeat split. by constructor. Qed.

Lemma stream_commits (again : exporter -> exporter * list event * coro)
    (tail : option exn) (total_size : Z) (chunks : list bytes) (f : bytes)
    (downloaded : Z) (budget : option nat) :
  quiet w cache_key again ->
  commits w cache_key
    (stream w space_key output_file cache_key again fail tail total_size chunks f
       downloaded budget).
Proof.
  intros Hagain. revert f downloaded budget.
  induction chunks as [|chunk rest IH]; intros f downloaded budget; cbn [stream].
  - constructor. intros self d Hd.
    assert (Hq : forall st : exporter -> exporter * list event * coro,
               quiet w cache_key st ->
               export_cache (st self).1.1 = PyDict d
               /\ cache_file (st self).1.1 = cache_file self
               /\ output_dir (st self).1.1 = output_dir self
               /\ (commits w cache_key (st self).2
                   \/ exists key p, (st self).2 = Return (Ok (true, key, Some p))
                        /\ d !! cache_key = Some p)).
    { intros st Hst. destruct (Hst self) as (E1 & E2 & E3 & Hc). rewrite E1. auto. }
    destruct tail as [e|].
    + left. destruct (retried e); [exact (Hq again Hagain)|exact (Hq fail fail_quiet)].
    + destruct ((0 <? total_size) && (downloaded <? total_size)); [left; exact (Hq again Hagain)|].
      right. unfold commit. rewrite Hd. cbn [fst snd].
      eexists _, _, _. split; [done|]. split; [done|]. by split.
  - destruct chunk as [|b chunk].
    + apply quiet_commits. intros self. cbn. repeat split. apply IH.
    + destruct budget as [[|n]|].
      * apply quiet_commits, fail_quiet.
      * apply quiet_commits. intros self. cbn. repeat split. apply IH.
      * apply quiet_commits. intros self. cbn. repeat split. apply IH.
Qed.

Lemma attempt_coro_commits (left : nat) (retry_count : Z) :
  commits w cache_key
    (attempt_coro w space_key export_url output_file cache_key left retry_count).
Proof.
  revert retry_count. induction left as [|left IH]; intros rc; cbn [attempt_coro].
  { by constructor. }
  set (again := fun self : exporter =>
         if rc + 1 <? max_retries
         then (self, [Sleep (retry_delay (rc + 1))],
               Await (fun self0 : exporter =>
                 (self0, [Get export_url],
                  attempt_coro w space_key export_url output_file cache_key left (rc + 1))))
         else (self, [], Return (Ok (failed space_key)))).
  assert (Hagain : quiet w cache_key again).
  { intros self. subst again. cbn beta. destruct (rc + 1 <? max_retries); cbn.
    - repeat split. apply quiet_commits. intros self0. cbn. repeat split. apply IH.
    - repeat split. by constructor. }
  apply quiet_commits. intros self.
  destruct (http_get w export_url (Z.to_nat rc)) as [e|status h chunks tail].
  { destruct (retried e); [apply Hagain|apply fail_quiet]. }
  destruct (negb (status =? 200)); [apply Hagain|].
  destruct h as [|n|]; [| |apply fail_quiet].
  - change (overflows 0) with false. cbn iota.
    destruct (disk w output_file); [|apply fail_quiet|];
      cbn; repeat split; by apply stream_commits.
  - destruct (overflows n); [apply fail_quiet|].
    destruct (disk w output_file); [|apply fail_quiet|];
      cbn; repeat split; by apply stream_commits.
Qed.
End coroutine_facts.

Lemma export_space_coro_commits (w : remote) (sp : space) :
  commits w (cache_key (s_key sp) (time_time w)) (export_space_coro w sp).
Proof.
  unfold export_space_coro. constructor. intros self d Hd. left. rewrite Hd.
  destruct (d !! _) as [path|] eqn:Hp.
  { cbn. repeat split; try done. right. by eexists _, _. }
  destruct (get_space_export w (s_key sp)) as [u|].
  2:{ cbn. repeat split; try done. left. by constructor. }
  destruct (usable_url u) as [url|].
  2:{ cbn. repeat split; try done. left. by constructor. }
  cbn. repeat split; try done. left. apply attempt_coro_commits.
Qed.

(** One step of a task that keeps the discipline, beside another task. *)
Lemma step_invariant (w : remote) (k k' : string)
    (step : exporter -> exporter * list event * coro) (other : coro) (self : exporter)
    (d : gmap string str) :
  k <> k' ->
  commits w k (Await step) ->
  export_cache self = PyDict d ->
  settled w k' other d ->
  exists d',
    export_cache (step self).1.1 = PyDict d'
    /\ output_dir (step self).1.1 = output_dir self
    /\ settled w k (step self).2 d'
    /\ settled w k' other d'
    /\ (disk w (cache_path self) = Writes ->
        _load_cache (cache_file self) = export_cache self ->
        _load_cache (cache_file (step self).1.1) = export_cache (step self).1.1).
Proof.
  intros Hne Hc Hd Ho. inversion Hc as [|step' Hstep]; subst step'.
  destruct (Hstep self d Hd) as [(E1 & E2 & E3 & Hs)|(key & p & self0 & Er & Es & E3 & E1)].
  - exists d. repeat split; try done. intros _. by rewrite E1, E2, Hd.
  - exists (<[k := p]> d). rewrite Es, Er, save_cache_export_cache, save_cache_output_dir.
    repeat split; try done.
    + right. exists key, p. split; [done|]. apply lookup_insert_eq.
    + destruct Ho as [Ho|(key' & p' & -> & Hp)]; [by left|].
      right. exists key', p'. split; [done|]. by rewrite lookup_insert_ne.
    + intros Hw _. destruct (save_cache_spec w self0) as (_ & _ & _ & ->).
      unfold cache_path in *. rewrite E3, Hw. done.
Qed.

(** The discipline is kept along every schedule of two tasks. *)
Lemma run_two_invariant (w : remote) (k1 k2 : string) (schedule : list bool) :
  k1 <> k2 ->
  forall (c1 c2 : coro) (self : exporter) (log : list event) (d : gmap string str)
         (c1' c2' : coro) (self' : exporter) (log' : list event),
    export_cache self = PyDict d ->
    settled w k1 c1 d -> settled w k2 c2 d ->
    run_two schedule c1 c2 self log = (c1', c2', self', log') ->
    exists d',
      export_cache self' = PyDict d'
      /\ output_dir self' = output_dir self
      /\ settled w k1 c1' d'
      /\ settled w k2 c2' d'
      /\ (disk w (cache_path self) = Writes ->
          _load_cache (cache_file self) = export_cache self ->
          _load_cache (cache_file self') = export_cache self').
Proof.
  intros Hne. induction schedule as [|first rest IH];
    intros c1 c2 self log d c1' c2' self' log' Hd H1 H2; cbn [run_two].
  { intros [= <- <- <- <-]. exists d. by repeat split. }
  destruct first.
  - destruct c1 as [r|step]; [by apply (IH _ _ _ _ d)|].
    assert (Hc : commits w k1 (Await step)).
    { by destruct H1 as [?|(? & ? & [=] & _)]. }
    destruct (step_invariant w k1 k2 step c2 self d Hne Hc Hd H2)
      as (d1 & E1 & E3 & Hs1 & Hs2 & Hf).
    destruct (step self) as [[s l] c] eqn:Es. cbn [fst snd] in *.
    intros Hrun. destruct (IH _ _ _ _ _ _ _ _ _ E1 Hs1 Hs2 Hrun) as (d' & ? & ? & ? & ? & Hf').
    exists d'. repeat split; try done; try congruence.
    intros Hw Hl. apply Hf'; [|by apply Hf]. unfold cache_path in *. by rewrite E3.
  - destruct c2 as [r|step]; [by apply (IH _ _ _ _ d)|].
    assert (Hc : commits w k2 (Await step)).
    { by destruct H2 as [?|(? & ? & [=] & _)]. }
    destruct (step_invariant w k2 k1 step c1 self d (not_eq_sym Hne) Hc Hd H1)
      as (d1 & E1 & E3 & Hs2 & Hs1 & Hf).
    destruct (step self) as [[s l] c] eqn:Es. cbn [fst snd] in *.
    intros Hrun. destruct (IH _ _ _ _ _ _ _ _ _ E1 Hs1 Hs2 Hrun) as (d' & ? & ? & ? & ? & Hf').
    exists d'. repeat split; try done; try congruence.
    intros Hw Hl. apply Hf'; [|by apply Hf]. unfold cache_path in *. by rewrite E3.
Qed.

(** ** A coroutine that runs alone is the task *)

Lemma write_archive_twice (self : exporter) (path : str) (f f' : bytes) :
  write_archive (write_archive self path f) path f' = write_archive self path f'.
Proof. unfold write_archive. cbn. by rewrite insert_insert_eq. Qed.

Section alone.
Variable w : remote.
Variables space_key export_url : string.
Variable output_file : str.
Variable cache_key : string.
Variables again fail : exporter -> exporter * list event * coro.
Variable tail : option exn.
Variable total_size : Z.

Local Abbreviation stream' :=
  (stream w space_key output_file cache_key again fail tail total_size).

(** What the task does once the stream has ended. *)
Local Abbreviation finish := (fun (downloaded : Z) (self : exporter) =>
  match tail with
  | Some e => if retried e then again self else fail self
  | None =>
      if (0 <? total_size) && (downloaded <? total_size) then again self
      else commit w space_key output_file cache_key self
  end).

Lemma stream_alone_writes (chunks : list bytes) (f : bytes) (downloaded : Z)
    (self : exporter) (log : list event) :
  run_alone (stream' chunks f downloaded None) (write_archive self output_file f) log
  = let '(self', l, c) :=
      finish (write_chunks chunks f downloaded).2
        (write_archive self output_file (write_chunks chunks f downloaded).1) in
    run_alone c self' (log ++ l).
Proof.
  revert f downloaded log. induction chunks as [|chunk rest IH]; intros f downloaded log.
  - by cbn [stream run_alone write_chunks fst snd].
  - destruct chunk as [|b chunk]; cbn [stream run_alone write_chunks].
    + rewrite app_nil_r. apply IH.
    + cbn [fmap option_fmap option_map]. rewrite app_nil_r, write_archive_twice. apply IH.
Qed.

Lemma stream_alone_budget (chunks : list bytes) (f : bytes) (downloaded : Z) (n : nat)
    (self : exporter) (log : list event) :
  run_alone (stream' chunks f downloaded (Some n)) (write_archive self output_file f) log
  = let '(self', l, c) :=
      match write_until n chunks f with
      | Some f' => fail (write_archive self output_file f')
      | None =>
          finish (write_chunks chunks f downloaded).2
            (write_archive self output_file (write_chunks chunks f downloaded).1)
      end in
    run_alone c self' (log ++ l).
Proof.
  revert f downloaded n log.
  induction chunks as [|chunk rest IH]; intros f downloaded n log.
  - by cbn [stream run_alone write_chunks write_until fst snd].
  - destruct chunk as [|b chunk]; cbn [stream run_alone write_chunks write_until].
    + rewrite app_nil_r. apply IH.
    + destruct n as [|n].
      * by cbn [run_alone].
      * cbn [run_alone fmap option_fmap option_map pred].
        rewrite app_nil_r, write_archive_twice. apply IH.
Qed.
End alone.

Section attempt_alone.
Variable w : remote.
Variables space_key export_url : string.
Variable output_file : str.
Variable cache_key : string.
Variable d : gmap string str.

Lemma commit_alone (self : exporter) (log : list event) :
  export_cache self = PyDict d ->
  (let '(self', l, c) := commit w space_key output_file cache_key self in
   run_alone c self' (log ++ l))
  = (Ok (true, space_key, Some output_file),
     _save_cache w (cache_insert self d cache_key output_file), log).
Proof. intros Hd. unfold commit. rewrite Hd. cbn. by rewrite app_nil_r. Qed.

(** The task suspended in its request is the loop from that iteration
    on. *)
Lemma attempt_alone (left : nat) (retry_count : Z) (self : exporter) (log : list event) :
  retry_count < max_retries ->
  max_retries - retry_count <= Z.of_nat left ->
  export_cache self = PyDict d ->
  run_alone (attempt_coro w space_key export_url output_file cache_key left retry_count)
    self (log ++ [Get export_url])
  = download_loop w space_key export_url output_file cache_key d left retry_count self log.
Proof.
  revert retry_count self log.
  induction left as [|left IH]; intros rc self log Hrc Hleft Hd; [lia|].
  cbn [attempt_coro download_loop].
  destruct (Z.ltb_spec rc max_retries) as [_|]; [|lia].
  set (fail := fun self : exporter => (self, @nil event, Return (Ok (failed space_key)))).
  set (again := fun self : exporter =>
         if rc + 1 <? max_retries
         then (self, [Sleep (retry_delay (rc + 1))],
               Await (fun self0 : exporter =>
                 (self0, [Get export_url],
                  attempt_coro w space_key export_url output_file cache_key left (rc + 1))))
         else fail self).
  assert (Hfail : forall s : exporter,
    (let '(self', l, c) := fail s in run_alone c self' ((log ++ [Get export_url]) ++ l))
    = (Ok (failed space_key), s, log ++ [Get export_url])).
  { intros s. cbn. by rewrite app_nil_r. }
  assert (Hagain : forall s : exporter, export_cache s = PyDict d ->
    (let '(self', l, c) := again s in run_alone c self' ((log ++ [Get export_url]) ++ l))
    = if rc + 1 <? max_retries
      then download_loop w space_key export_url output_file cache_key d left (rc + 1) s
             ((log ++ [Get export_url]) ++ [Sleep (retry_delay (rc + 1))])
      else (Ok (failed space_key), s, log ++ [Get export_url])).
  { intros s Hs. subst again. cbn beta.
    destruct (Z.ltb_spec (rc + 1) max_retries) as [Hlt|Hge].
    - cbn [fst snd run_alone]. apply IH; [done|lia|done].
    - apply Hfail. }
  assert (Hfinish : forall (tail : option exn) (total_size : Z) (chunks : list bytes),
    let s := write_archive self output_file (write_chunks chunks [] 0).1 in
    (let '(self', l, c) :=
      match tail with
      | Some e => if retried e then again s else fail s
      | None =>
          if (0 <? total_size) && ((write_chunks chunks [] 0).2 <? total_size)
          then again s
          else commit w space_key output_file cache_key s
      end in
    run_alone c self' ((log ++ [Get export_url]) ++ l))
    = match tail with
      | Some e =>
          if retried e
          then if rc + 1 <? max_retries
               then download_loop w space_key export_url output_file cache_key d left
                      (rc + 1) s
                      ((log ++ [Get export_url]) ++ [Sleep (retry_delay (rc + 1))])
               else (Ok (failed space_key), s, log ++ [Get export_url])
          else (Ok (failed space_key), s, log ++ [Get export_url])
      | None =>
          if (0 <? total_size) && ((write_chunks chunks [] 0).2 <? total_size)
          then if rc + 1 <? max_retries
               then download_loop w space_key export_url output_file cache_key d left
                      (rc + 1) s
                      ((log ++ [Get export_url]) ++ [Sleep (retry_delay (rc + 1))])
               else (Ok (failed space_key), s, log ++ [Get export_url])
          else (Ok (true, space_key, Some output_file),
                _save_cache w (cache_insert s d cache_key output_file),
                log ++ [Get export_url])
      end).
  { intros tail total_size chunks s.
    assert (Hs : export_cache s = PyDict d) by done.
    destruct tail as [e|].
    - destruct (retried e); [exact (Hagain s Hs)|exact (Hfail s)].
    - destruct ((0 <? total_size) && _); [exact (Hagain s Hs)|by apply commit_alone]. }
  cbn [run_alone].
  destruct (http_get w export_url (Z.to_nat rc)) as [e|status h chunks tail].
  { destruct (retried e); [exact (Hagain self Hd)|exact (Hfail self)]. }
  destruct (negb (status =? 200)); [exact (Hagain self Hd)|].
  assert (Hbody : forall total_size : Z,
    (let
     '(self0, l, c) :=
      match disk w output_file with
      | Writes =>
          (write_archive self output_file [], [],
           stream w space_key output_file cache_key again fail tail total_size chunks []
             0 None)
      | OpenFails => fail self
      | WriteFails n =>
          (write_archive self output_file [], [],
           stream w space_key output_file cache_key again fail tail total_size chunks []
             0 (Some n))
      end in run_alone c self0 ((log ++ [Get export_url]) ++ l))
    = (let
       '(self0, downloaded, written) := store w self output_file chunks in
        if negb written
        then
         if retried OSError
         then
          if rc + 1 <? max_retries
          then
           download_loop w space_key export_url output_file cache_key d left (rc + 1) self0
             ((log ++ [Get export_url]) ++ [Sleep (retry_delay (rc + 1))])
          else (Ok (failed space_key), self0, log ++ [Get export_url])
         else (Ok (failed space_key), self0, log ++ [Get export_url])
        else
         match tail with
         | Some e =>
             if retried e
             then
              if rc + 1 <? max_retries
              then
               download_loop w space_key export_url output_file cache_key d left (rc + 1)
                 self0 ((log ++ [Get export_url]) ++ [Sleep (retry_delay (rc + 1))])
              else (Ok (failed space_key), self0, log ++ [Get export_url])
             else (Ok (failed space_key), self0, log ++ [Get export_url])
         | None =>
             if (0 <? total_size) && (downloaded <? total_size)
             then
              if rc + 1 <? max_retries
              then
               download_loop w space_key export_url output_file cache_key d left (rc + 1)
                 self0 ((log ++ [Get export_url]) ++ [Sleep (retry_delay (rc + 1))])
              else (Ok (failed space_key), self0, log ++ [Get export_url])
             else
              (Ok (true, space_key, Some output_file),
               _save_cache w (cache_insert self0 d cache_key output_file),
               log ++ [Get export_url])
         end)).
  { intros total_size. unfold store.
    pose proof (Hfinish tail total_size chunks) as Hfin. cbn zeta in Hfin.
    destruct (disk w output_file) as [| |n].
    - rewrite app_nil_r, stream_alone_writes. cbn zeta. rewrite Hfin.
      by destruct (write_chunks chunks [] 0) as [f dl].
    - cbn. by rewrite app_nil_r.
    - rewrite app_nil_r, stream_alone_budget. cbn zeta.
      destruct (write_until n chunks []) as [f'|].
      + cbn. by rewrite app_nil_r.
      + rewrite Hfin. by destruct (write_chunks chunks [] 0) as [f dl]. }
  destruct h as [|n|].
  - change (overflows 0) with false. cbn iota. exact (Hbody 0).
  - destruct (overflows n); [exact (Hfail self)|]. exact (Hbody n).
  - exact (Hfail self).
Qed.
End attempt_alone.

(** Run alone, the coroutine of the asyncio exporter is its export
    task. *)
Lemma export_space_coro_alone (w : remote) (self : exporter) (sp : space) :
  run_alone (export_space_coro w sp) self [] = export_space_async w self sp.
Proof.
  unfold export_space_coro, export_space_async. cbn [run_alone].
  destruct (export_cache self) as [|d] eqn:Hd; [done|].
  destruct (d !! _); [done|].
  destruct (get_space_export w (s_key sp)) as [u|]; [|done].
  destruct (usable_url u) as [url|]; [|done].
  unfold download.
  by apply (attempt_alone w (s_key sp) url _ _ d (Z.to_nat max_retries) 0 self
              [ExportRequest (s_key sp)]).
Qed.

(** Run alone, the coroutine of the thread-pool exporter is its export
    task. *)
Lemma export_space_thread_alone (w : remote) (self : exporter) (sp : space) :
  run_alone (export_space_thread w sp) self [] = export_space_sync w self sp.
Proof.
  unfold export_space_thread, export_space_sync. cbn [run_alone].
  destruct (export_cache self) as [|d] eqn:Hd; [done|].
  destruct (d !! _); [done|]. cbn [run_alone].
  destruct (get_space_export w (s_key sp)) as [u|]; [|done].
  destruct (usable_url u) as [url|]; [|done]. cbn [run_alone].
  destruct (http_get w url 0) as [|? ? chunks []]; [done..|]. cbn [run_alone].
  match goal with |- context [store w self ?t chunks] =>
    pose proof (store_cache w self t chunks) as (E1 & _);
    destruct (store w self t chunks) as [[s1 ?] []] end; [|done].
  cbn [fst snd run_alone] in *. rewrite E1, Hd. cbn [run_alone]. done.
Qed.

(** C5, as amended. Two export tasks of the asyncio exporter run as
    coroutines on one exporter (run alone, such a coroutine is the export
    task), resumed in any order, for two spaces with different
    fingerprints.  The task is suspended nowhere between the insertion
    into the dictionary and the end of [_save_cache], so at every point of
    every schedule: the dictionary is a dictionary; a task that has
    returned a success returned the path the dictionary holds under its
    fingerprint, so no entry is lost; and, if the cache file can be
    written and held the dictionary at the start, it holds the dictionary,
    with both entries once both tasks have returned a success. *)
Theorem asyncio_commits_are_serialized (w : remote) (self : exporter) (sp1 sp2 : space)
    (d : gmap string str) (schedule : list bool) (c1 c2 : coro) (self' : exporter)
    (log : list event) :
  export_cache self = PyDict d ->
  cache_key (s_key sp1) (time_time w) <> cache_key (s_key sp2) (time_time w) ->
  run_two schedule (export_space_coro w sp1) (export_space_coro w sp2) self []
  = (c1, c2, self', log) ->
  (forall s sp, run_alone (export_space_coro w sp) s [] = export_space_async w s sp)
  /\ exists d',
       export_cache self' = PyDict d'
       /\ (forall key p, c1 = Return (Ok (true, key, Some p)) ->
           d' !! cache_key (s_key sp1) (time_time w) = Some p)
       /\ (forall key p, c2 = Return (Ok (true, key, Some p)) ->
           d' !! cache_key (s_key sp2) (time_time w) = Some p)
       /\ (disk w (cache_path self) = Writes ->
           _load_cache (cache_file self) = PyDict d ->
           _load_cache (cache_file self') = PyDict d').
Proof.
  intros Hd Hne Hrun. split; [intros s sp; apply export_space_coro_alone|].
  destruct (run_two_invariant w _ _ schedule Hne _ _ self [] d c1 c2 self' log Hd
              (or_introl (export_space_coro_commits w sp1))
              (or_introl (export_space_coro_commits w sp2)) Hrun)
    as (d' & Hd' & _ & H1 & H2 & Hf).
  exists d'. split; [done|]. split; [|split].
  - intros key p ->. destruct H1 as [H1|(key' & p' & [= <- <-] & Hp)]; [|done].
    by inversion H1.
  - intros key p ->. destruct H2 as [H2|(key' & p' & [= <- <-] & Hp)]; [|done].
    by inversion H2.
  - intros Hw Hl. rewrite <- Hd'. apply Hf; [done|]. by rewrite Hd.
Qed.

Lemma asyncio_commits_are_serialized_witness :
  let turns := [true; false; true; false; true; false; true; false; true; false] in
  let r := run_two turns (export_space_coro (world (fun _ => flaky 2)) space_A)
             (export_space_coro (world (fun _ => flaky 2)) space_B) fresh [] in
  r.1.1.1 = Return (Ok (true, "A", Some (of_string "out/A_Alpha.html.zip")))
  /\ r.1.1.2 = Return (Ok (true, "B", Some (of_string "out/B_Beta.html.zip")))
  /\ exists d',
       _load_cache (cache_file r.1.2) = PyDict d'
       /\ d' !! "A_20023" = Some (of_string "out/A_Alpha.html.zip")
       /\ d' !! "B_20023" = Some (of_string "out/B_Beta.html.zip").
Proof.
  intros turns r.
  assert (E1 : r.1.1.1 = Return (Ok (true, "A", Some (of_string "out/A_Alpha.html.zip"))))
    by reflexivity.
  assert (E2 : r.1.1.2 = Return (Ok (true, "B", Some (of_string "out/B_Beta.html.zip"))))
    by reflexivity.
  split; [exact E1|]. split; [exact E2|].
  destruct (asyncio_commits_are_serialized (world (fun _ => flaky 2)) fresh space_A space_B
              ∅ turns r.1.1.1 r.1.1.2 r.1.2 r.2 eq_refl)
    as (_ & d' & _ & H1 & H2 & Hf).
  - intros H. vm_compute in H. discriminate.
  - reflexivity.
  - exists d'. split; [by apply Hf|]. split.
    + exact (H1 _ _ E1).
    + exact (H2 _ _ E2).
Defined.

(** C5, as stated, fails for the thread-pool exporter: its commit is
    not exclusive.  Two threads, each with a clean download at hand and a
    disk that takes every write, are suspended after their insertions and
    before their [_save_cache]: the dictionary holds both entries and the
    cache file neither, a state that commits run one after the other do
    not pass through.  When the two threads are then resumed, each
    [_save_cache] writes both entries.  (Run alone, each thread is the
    export task of the thread-pool exporter.) *)
Lemma thread_pool_commits_overlap :
  let w := world (fun _ => flaky 2) in
  let turns := [true; true; true; true; true; false; false; false; false; false] in
  let r := run_two turns (export_space_thread w space_A) (export_space_thread w space_B)
             fresh [] in
  let r' := run_two (turns ++ [false; true]) (export_space_thread w space_A)
              (export_space_thread w space_B) fresh [] in
  run_alone (export_space_thread w space_A) fresh [] = export_space_sync w fresh space_A
  /\ run_alone (export_space_thread w space_B) fresh [] = export_space_sync w fresh space_B
  /\ (forall path, disk w path = Writes)
  /\ finished r.1.1.1 = false
  /\ finished r.1.1.2 = false
  /\ export_cache r.1.2
     = PyDict (<["B_20023" := of_string "out/B_Beta.html.zip"]>
                 (<["A_20023" := of_string "out/A_Alpha.html.zip"]> ∅))
  /\ cache_file r.1.2 = Missing
  /\ r'.1.1.1 = Return (Ok (true, "A", Some (of_string "out/A_Alpha.html.zip")))
  /\ r'.1.1.2 = Return (Ok (true, "B", Some (of_string "out/B_Beta.html.zip")))
  /\ cache_file r'.1.2 = Json (export_cache r.1.2).
Proof. repeat split. Qed.



(** * Further properties *)

(** ** Streaming the body *)

Lemma write_chunks_acc (chunks : list bytes) (f : bytes) (n : Z) :
  write_chunks chunks f n
  = (f ++ concat chunks, n + Z.of_nat (length (concat chunks))).
Proof.
  revert f n. induction chunks as [|chunk rest IH]; intros f n; cbn [write_chunks concat].
  - by rewrite app_nil_r, Z.add_0_r.
  - destruct chunk as [|b chunk]; rewrite IH; [done|].
    rewrite <- app_assoc, !length_app. f_equal. lia.
Qed.

(** X1. The file written by the chunk loop is the concatenation of the
    chunks and [downloaded] is its length: empty chunks add nothing. *)
Theorem streamed_body_is_concatenation (chunks : list bytes) :
  body chunks = concat chunks
  /\ downloaded chunks = Z.of_nat (length (body chunks)).
Proof. unfold body, downloaded. by rewrite write_chunks_acc. Qed.

(** ** More on the sanitiser *)

Lemma kept_safe_char (c : N) : kept c = true -> safe_char c = c.
Proof. unfold safe_char. fold (kept c). by intros ->. Qed.

Lemma kept_no_separator (c : N) :
  kept c = true -> char_in c (of_string "/\:") = false.
Proof.
  intros Hk. destruct (char_in c (of_string "/\:")) eqn:Hc; [|done]. exfalso.
  apply existsb_exists in Hc as (x & Hx & Hcx). apply N.eqb_eq in Hcx as <-.
  vm_compute in Hx. destruct Hx as [<-|[<-|[<-|[]]]]; by vm_compute in Hk.
Qed.

(** X2. For every name, a sequence of code points: sanitising is
    idempotent, and a sanitised name holds neither a slash nor a backslash
    nor a colon. *)
Theorem safe_name_idempotent_no_separator (space_name : str) :
  safe_name (safe_name space_name) = safe_name space_name
  /\ string_forall (fun c => negb (char_in c (of_string "/\:"))) (safe_name space_name)
     = true.
Proof.
  split.
  - unfold safe_name. rewrite map_map. apply map_ext.
    intros c. apply kept_safe_char, safe_char_kept.
  - unfold string_forall, safe_name. apply forallb_forall.
    intros c (c0 & <- & _)%in_map_iff.
    by rewrite (kept_no_separator _ (safe_char_kept c0)).
Qed.


(** ** More on selection *)

(** X3. Without an allow-list (or with an empty one) the loop with the
    two [continue]s keeps, in order, the spaces that are not personal
    unless personal spaces are included, and not archived unless archived
    spaces are included; with both flags set it keeps every space. *)
Theorem flag_filter_keeps (all_spaces : list space) (include_personal include_archived : bool) :
  select_spaces all_spaces include_personal include_archived None
  = List.filter (fun sp => implb (is_personal sp) include_personal
                           && implb (is_archived sp) include_archived) all_spaces
  /\ select_spaces all_spaces include_personal include_archived (Some [])
     = select_spaces all_spaces include_personal include_archived None
  /\ select_spaces all_spaces true true None = all_spaces.
Proof.
  unfold select_spaces. split; [|split; [done|]].
  - induction all_spaces as [|sp rest IH]; cbn [filter_by_flags List.filter]; [done|].
    rewrite IH. by destruct (is_personal sp), (is_archived sp), include_personal, include_archived.
  - induction all_spaces as [|sp rest IH]; cbn [filter_by_flags]; [done|].
    rewrite IH. by destruct (is_personal sp), (is_archived sp).
Qed.

(** X4. A space that has no [status] and whose [type] is not
    "personal" in any case is selected whatever the two flags are: a
    missing status counts as not archived. *)
Theorem space_without_status_is_selected (all_spaces : list space) (sp : space)
    (include_personal include_archived : bool) :
  sp ∈ all_spaces ->
  s_status sp = None ->
  lower (s_type sp) <> "personal" ->
  sp ∈ select_spaces all_spaces include_personal include_archived None.
Proof.
  intros Hin Hstatus Htype.
  assert (Hp : is_personal sp = false).
  { unfold is_personal. by apply String.eqb_neq. }
  assert (Ha : is_archived sp = false).
  { unfold is_archived. by rewrite Hstatus. }
  unfold select_spaces.
  induction Hin as [sp rest|sp sp' rest Hin IH]; cbn [filter_by_flags].
  - rewrite Hp, Ha. cbn. apply list_elem_of_here.
  - specialize (IH Hstatus Htype Hp Ha).
    repeat case_match; try done; by apply list_elem_of_further.
Qed.

Lemma space_without_status_is_selected_witness :
  Space "K" None "Global" None
  ∈ select_spaces [space_B; Space "K" None "Global" None] false false None.
Proof.
  apply (space_without_status_is_selected [space_B; Space "K" None "Global" None]
           (Space "K" None "Global" None) false false).
  - apply list_elem_of_further, list_elem_of_here.
  - reflexivity.
  - discriminate.
Defined.

(** ** More on the fingerprint *)

Lemma string_app_length (s1 s2 : string) :
  String.length (s1 +:+ s2) = (String.length s1 + String.length s2)%nat.
Proof.
  induction s1 as [|c s1 IH]; [done|].
  change (S (String.length (s1 +:+ s2)) = S (String.length s1 + String.length s2)).
  by rewrite IH.
Qed.

Lemma string_app_inj_l (s1 s2 t : string) : s1 +:+ t = s2 +:+ t -> s1 = s2.
Proof.
  revert s2. induction s1 as [|c s1 IH]; intros [|c2 s2] H.
  - done.
  - apply (f_equal String.length) in H.
    change (String.length t = S (String.length (s2 +:+ t))) in H.
    rewrite string_app_length in H. lia.
  - apply (f_equal String.length) in H.
    change (S (String.length (s1 +:+ t)) = String.length t) in H.
    rewrite string_app_length in H. lia.
  - change (String c (s1 +:+ t) = String c2 (s2 +:+ t)) in H.
    injection H as -> H. by rewrite (IH s2 H).
Qed.

(** X5. At one and the same time two different keys have different
    fingerprints. *)
Theorem fingerprint_separates_keys (k1 k2 : string) (t : Q) :
  k1 <> k2 -> cache_key k1 t <> cache_key k2 t.
Proof. unfold cache_key. intros Hne H. by apply string_app_inj_l in H. Qed.

Lemma fingerprint_separates_keys_witness :
  cache_key "DEV" (1730000000 # 1) <> cache_key "DEV_20023" (1730000000 # 1).
Proof. apply (fingerprint_separates_keys "DEV" "DEV_20023" (1730000000 # 1)). discriminate. Defined.


(** ** Bounds on what a task does *)

Section loop_bounds.
Variable w : remote.
Variables space_key export_url : string.
Variable output_file : str.
Variable cache_key : string.
Variable d : gmap string str.

Local Abbreviation loop := (download_loop w space_key export_url output_file cache_key d).

(** From [retry_count] on, the loop makes at most
    [max_retries - retry_count] attempts, and sleeps only the delays of
    the attempts that follow. *)
Lemma loop_bounded (left : nat) (retry_count : Z) (self self' : exporter)
    (log log' : list event) (r : res outcome) :
  0 <= retry_count ->
  loop left retry_count self log = (r, self', log') ->
  exists l, log' = log ++ l
    /\ Z.of_nat (attempts l) <= Z.max 0 (max_retries - retry_count)
    /\ forall s, Sleep s ∈ l ->
         exists n, retry_count < n < max_retries /\ s = retry_delay n.
Proof.
  revert retry_count self log.
  assert (Hnil : forall (rc : Z) (log : list event), exists l : list event,
             log = log ++ l
             /\ Z.of_nat (attempts l) <= Z.max 0 (max_retries - rc)
             /\ forall s, Sleep s ∈ l -> exists n, rc < n < max_retries /\ s = retry_delay n).
  { intros rc log. exists []. split; [by rewrite app_nil_r|]. split; [cbn; lia|].
    intros s H. by apply elem_of_nil in H. }
  assert (Hone : forall (rc : Z) (log : list event), rc < max_retries -> exists l : list event,
             log ++ [Get export_url] = log ++ l
             /\ Z.of_nat (attempts l) <= Z.max 0 (max_retries - rc)
             /\ forall s, Sleep s ∈ l -> exists n, rc < n < max_retries /\ s = retry_delay n).
  { intros rc log Hlt. exists [Get export_url]. split; [done|]. split; [cbn; lia|].
    intros s H. apply list_elem_of_singleton in H. done. }
  induction left as [|left IH]; intros rc self log Hrc; [intros [= <- <- <-]; apply Hnil|].
  destruct (Z.ltb_spec rc max_retries) as [Hlt|Hge].
  2:{ cbn [download_loop]. destruct (Z.ltb_spec rc max_retries); [lia|].
      intros [= <- <- <-]; apply Hnil. }
  rewrite loop_step by done. cbn zeta.
  destruct (write_fails w output_file _); [intros [= <- <- <-]; by apply Hone|].
  destruct (transient _).
  - destruct (Z.ltb_spec (rc + 1) max_retries) as [Hlt'|Hge'];
      [|intros [= <- <- <-]; by apply Hone].
    intros (l & -> & Hn & Hs)%IH; [|lia].
    exists ([Get export_url; Sleep (retry_delay (rc + 1))] ++ l).
    split; [by rewrite <- app_assoc|]. split.
    + rewrite attempts_app. cbn. lia.
    + intros s [H|H]%elem_of_app.
      * apply elem_of_cons in H as [[=]|H]. apply list_elem_of_singleton in H as [= ->].
        exists (rc + 1). lia.
      * apply Hs in H as (n & Hn' & ->). exists n. lia.
  - destruct (complete _); intros [= <- <- <-]; by apply Hone.
Qed.
End loop_bounds.


(** X6. Whatever the remote does, a task of the asyncio exporter makes
    at most three download attempts and sleeps for 10 or 20 seconds only;
    a task of the thread-pool exporter makes at most one attempt and
    never sleeps. *)
Theorem attempts_are_bounded (w : remote) (self : exporter) (sp : space) :
  (attempts (export_space_async w self sp).2 <= 3)%nat
  /\ (forall s, Sleep s ∈ (export_space_async w self sp).2 -> s = 10 \/ s = 20)
  /\ (attempts (export_space_sync w self sp).2 <= 1)%nat
  /\ (forall s, Sleep s ∉ (export_space_sync w self sp).2).
Proof.
  assert (Hsync : (attempts (export_space_sync w self sp).2 <= 1)%nat
                  /\ forall s, Sleep s ∉ (export_space_sync w self sp).2).
  { unfold export_space_sync.
    repeat case_match; cbn; (split; [lia|]); intros sec Hin; set_solver. }
  assert (Hasync : (attempts (export_space_async w self sp).2 <= 3)%nat
                   /\ forall s, Sleep s ∈ (export_space_async w self sp).2 -> s = 10 \/ s = 20).
  { unfold export_space_async.
    destruct (export_cache self) as [|d]; [cbn; split; [lia|set_solver]|].
    destruct (d !! _); [cbn; split; [lia|set_solver]|].
    destruct (get_space_export w (s_key sp)) as [u|]; [|cbn; split; [lia|set_solver]].
    destruct (usable_url u) as [url|]; [|cbn; split; [lia|set_solver]].
    unfold download. destruct (download_loop _ _ _ _ _ _ _ _ _ _) as [[r s'] log] eqn:E.
    apply loop_bounded in E as (l & -> & Hn & Hs); [|done]. cbn [snd]. split.
    - rewrite attempts_app. change (attempts [ExportRequest (s_key sp)]) with 0%nat.
      unfold max_retries in Hn. lia.
    - intros s [H|H]%elem_of_app; [set_solver|].
      apply Hs in H as (n & Hn' & ->). unfold max_retries in Hn'.
      assert (n = 1 \/ n = 2) as [-> | ->] by lia; [by left|by right]. }
  destruct Hsync, Hasync. done.
Qed.


Lemma attempts_are_bounded_witness :
  (attempts (export_space_async (world half) fresh space_A).2 <= 3)%nat
  /\ Sleep 10 ∉ (export_space_sync (world half) fresh space_A).2.
Proof.
  destruct (attempts_are_bounded (world half) fresh space_A) as (H1 & _ & _ & H2).
  split; [exact H1|apply H2].
Defined.

(** ** What a task does to the cache *)

Section loop_commit.
Variable w : remote.
Variables space_key export_url : string.
Variable output_file : str.
Variable cache_key : string.
Variable d : gmap string str.

Local Abbreviation loop := (download_loop w space_key export_url output_file cache_key d).

(** A loop that succeeds has written the archive, inserted the
    fingerprint and called [_save_cache]. *)
Lemma loop_success_state (left : nat) (retry_count : Z) (self self' : exporter)
    (log log' : list event) (k : string) (p : option str) :
  loop left retry_count self log = (Ok (true, k, p), self', log') ->
  p = Some output_file
  /\ export_cache self' = PyDict (<[cache_key := output_file]> d)
  /\ cache_file self'
     = match disk w (cache_path self) with
       | Writes => Json (PyDict (<[cache_key := output_file]> d))
       | OpenFails => cache_file self
       | WriteFails _ => Corrupt
       end
  /\ is_Some (archives self' !! output_file).
Proof.
  revert retry_count self log.
  induction left as [|left IH]; intros rc self log; [done|].
  destruct (Z.ltb_spec rc max_retries) as [Hlt|Hge].
  2:{ cbn [download_loop]. by destruct (Z.ltb_spec rc max_retries); [lia|]. }
  pose proof (after_attempt_cache w self output_file (http_get w export_url (Z.to_nat rc)))
    as (_ & E2 & E3).
  rewrite loop_step by done. cbn zeta.
  destruct (write_fails w output_file _) eqn:Hw; [done|].
  destruct (transient _).
  - destruct (rc + 1 <? max_retries); [|done].
    intros H%IH. unfold cache_path in *. by rewrite E2, E3 in H.
  - destruct (complete _) eqn:Hc; [|done].
    intros [= <- <- <- <-].
    match goal with |- context [_save_cache w ?s] =>
      destruct (save_cache_spec w s) as (-> & _ & -> & ->) end.
    unfold cache_path, cache_insert. cbn [output_dir cache_file export_cache archives].
    rewrite E2, E3. repeat split; try done.
    destruct (http_get w export_url (Z.to_nat rc)) as [|st h ch [|]]; try done.
    cbn [complete write_fails after_attempt] in *.
    apply andb_prop in Hc as [Hs Hc]. rewrite Hs in *. cbn [andb] in Hw.
    destruct h; [| |done]; apply andb_prop in Hc as [Ho _]; rewrite Ho in Hw;
      apply negb_true_iff in Ho; rewrite Ho; cbn [andb] in Hw;
      apply negb_false_iff in Hw; rewrite store_written by done; cbn;
      rewrite lookup_insert_eq; by eexists.
Qed.
End loop_commit.

(** X7. A task that returns a failure has left the dictionary and the
    cache file as they were, in both exporters. *)
Theorem failure_never_commits (w : remote) (self self' : exporter) (sp : space)
    (k : string) (p : option str) (log : list event) :
  (export_space_sync w self sp = (Ok (false, k, p), self', log) ->
   export_cache self' = export_cache self /\ cache_file self' = cache_file self)
  /\ (export_space_async w self sp = (Ok (false, k, p), self', log) ->
      export_cache self' = export_cache self /\ cache_file self' = cache_file self).
Proof.
  split.
  - unfold export_space_sync.
    destruct (export_cache self) as [|d0] eqn:Hd; [done|].
    destruct (d0 !! _); [done|].
    destruct (get_space_export w (s_key sp)) as [u|];
      [|intros [= <- <- <-]; split; congruence].
    destruct (usable_url u) as [url|]; [|intros [= <- <- <-]; split; congruence].
    destruct (http_get w url 0) as [|? ? chunks []];
      try (intros [= <- <- <-]; split; congruence).
    match goal with |- context [store w self ?t chunks] =>
      pose proof (store_cache w self t chunks) as (E1 & E2 & _);
      destruct (store w self t chunks) as [[s1 ?] []] end; [done|].
    cbn [fst snd] in *. intros [= <- <- <-]. split; congruence.
  - unfold export_space_async. repeat case_match; try by intros [= <- <- <-].
    unfold download. intros [E1 E2]%loop_failed_cache. split; congruence.
Qed.

Lemma failure_never_commits_witness :
  exists self',
    export_space_async (world half) fresh space_A
    = (Ok (false, "A", None), self',
       [ExportRequest "A"; Get "https://wiki/export/A"; Sleep 10;
        Get "https://wiki/export/A"; Sleep 20; Get "https://wiki/export/A"])
    /\ export_cache self' = PyDict ∅.
Proof.
  eexists. split; [reflexivity|].
  apply (failure_never_commits (world half) fresh _ space_A "A" None
           [ExportRequest "A"; Get "https://wiki/export/A"; Sleep 10;
            Get "https://wiki/export/A"; Sleep 20; Get "https://wiki/export/A"]).
  reflexivity.
Defined.

(** X8. A task that returns a success after a download returns the
    path of its output file, has inserted that path under the fingerprint
    and has left a file under that path; the cache file then holds the
    whole dictionary if it could be written, is as it was if it could not
    be opened, and is broken if its write failed.  This holds for both
    exporters. *)
Theorem success_commits_and_persists (w : remote) (self self' : exporter) (sp : space)
    (d : gmap string str) (p : option str) (log : list event) :
  export_cache self = PyDict d ->
  log <> [] ->
  export_space_sync w self sp = (Ok (true, s_key sp, p), self', log)
  \/ export_space_async w self sp = (Ok (true, s_key sp, p), self', log) ->
  let fingerprint := cache_key (s_key sp) (time_time w) in
  let target := output_file self (s_key sp) (default (of_string (s_key sp)) (s_name sp)) in
  p = Some target
  /\ export_cache self' = PyDict (<[fingerprint := target]> d)
  /\ cache_file self'
     = match disk w (cache_path self) with
       | Writes => Json (PyDict (<[fingerprint := target]> d))
       | OpenFails => cache_file self
       | WriteFails _ => Corrupt
       end
  /\ is_Some (archives self' !! target).
Proof.
  intros Hd Hlog [H|H] fingerprint target.
  - unfold export_space_sync in H. rewrite Hd in H.
    destruct (d !! _); [by injection H as <- <- <-|].
    destruct (get_space_export w (s_key sp)) as [u|]; [|done].
    destruct (usable_url u) as [url|]; [|done].
    destruct (http_get w url 0) as [|? ? chunks []]; try done.
    fold target in H. fold fingerprint in H.
    destruct (written w target chunks) eqn:Hw.
    + rewrite store_written in H by done. injection H as <- <- <-.
      match goal with |- context [_save_cache w ?s] =>
        destruct (save_cache_spec w s) as (-> & _ & -> & ->) end.
      repeat split; try done. cbn. rewrite lookup_insert_eq. by eexists.
    + rewrite store_failed in H by done. done.
  - unfold export_space_async in H. rewrite Hd in H.
    destruct (d !! _); [by injection H as <- <- <-|].
    destruct (get_space_export w (s_key sp)) as [u|]; [|done].
    destruct (usable_url u) as [url|]; [|done].
    unfold download in H. by apply loop_success_state in H.
Qed.

Lemma success_commits_and_persists_witness :
  exists self',
    export_space_async (world flaky) fresh space_A
    = (Ok (true, "A", Some (of_string "out/A_Alpha.html.zip")), self',
       [ExportRequest "A"; Get "https://wiki/export/A"; Sleep 10;
        Get "https://wiki/export/A"; Sleep 20; Get "https://wiki/export/A"])
    /\ is_Some (archives self' !! of_string "out/A_Alpha.html.zip").
Proof.
  eexists. split; [reflexivity|].
  apply (success_commits_and_persists (world flaky) fresh _ space_A ∅
           (Some (of_string "out/A_Alpha.html.zip"))
           [ExportRequest "A"; Get "https://wiki/export/A"; Sleep 10;
            Get "https://wiki/export/A"; Sleep 20; Get "https://wiki/export/A"]).
  - reflexivity.
  - discriminate.
  - right. reflexivity.
Defined.

(** X9. A task never removes or changes an entry of the cache: the
    dictionary it leaves contains the dictionary it found, in both
    exporters and whatever the result. *)
Theorem cache_only_grows (w : remote) (self : exporter) (sp : space)
    (d : gmap string str) :
  export_cache self = PyDict d ->
  (exists d', export_cache (export_space_sync w self sp).1.2 = PyDict d' /\ d ⊆ d')
  /\ (exists d', export_cache (export_space_async w self sp).1.2 = PyDict d' /\ d ⊆ d').
Proof.
  intros Hd. split.
  - unfold export_space_sync. rewrite Hd.
    destruct (d !! _) eqn:Hmiss; [by exists d|].
    destruct (get_space_export w (s_key sp)) as [u|]; [|by exists d].
    destruct (usable_url u) as [url|]; [|by exists d].
    destruct (http_get w url 0) as [|? ? chunks []]; try by exists d.
    match goal with |- context [store w self ?t chunks] =>
      pose proof (store_cache w self t chunks) as (E1 & _);
      destruct (store w self t chunks) as [[s1 ?] []] end; cbn [fst snd] in *.
    + eexists. split; [by rewrite save_cache_export_cache|]. by apply insert_subseteq.
    + exists d. split; [congruence|done].
  - unfold export_space_async. rewrite Hd.
    destruct (d !! _) eqn:Hmiss; [by exists d|].
    repeat case_match; try by exists d.
    unfold download.
    destruct (download_loop _ _ _ _ _ _ _ _ _ _) as [[r s'] log] eqn:E. cbn [fst snd].
    destruct r as [[[[] k] p]|e].
    + apply loop_success_state in E as (_ & -> & _). eexists. split; [done|].
      by apply insert_subseteq.
    + apply loop_failed_cache in E as [-> _]. by exists d.
    + by apply loop_outcome in E as [[? _]|?].
Qed.

Lemma cache_only_grows_witness :
  exists d', export_cache (export_space_async (world flaky) warm space_B).1.2 = PyDict d'
             /\ d' !! "A_20023" = Some (of_string "out/A_Alpha.html.zip").
Proof.
  destruct (cache_only_grows (world flaky) warm space_B
              {[ "A_20023" := of_string "out/A_Alpha.html.zip" ]} eq_refl)
    as [_ (d' & E & Hsub)].
  exists d'. split; [exact E|].
  eapply lookup_weaken; [|exact Hsub]. by vm_compute.
Defined.

(** X10. When the export request raises or gives no URL ([None] or the
    empty string), the task fails at once in both exporters: the request
    is the only call, nothing is downloaded, slept or written. *)
Theorem no_url_fails_without_download (w : remote) (self : exporter) (sp : space)
    (d : gmap string str) :
  export_cache self = PyDict d ->
  d !! cache_key (s_key sp) (time_time w) = None ->
  (exists e, get_space_export w (s_key sp) = Raise e)
  \/ get_space_export w (s_key sp) = Ok None
  \/ get_space_export w (s_key sp) = Ok (Some EmptyString) ->
  export_space_sync w self sp = (Ok (false, s_key sp, None), self, [ExportRequest (s_key sp)])
  /\ export_space_async w self sp
     = (Ok (false, s_key sp, None), self, [ExportRequest (s_key sp)]).
Proof.
  intros Hd Hm Hu. unfold export_space_sync, export_space_async. rewrite Hd, Hm.
  by destruct Hu as [[e ->]|[-> | ->]].
Qed.

Lemma no_url_fails_without_download_witness :
  export_space_async
    (Remote 0 (fun _ _ => Ok None) (fun _ => Ok (Some EmptyString)) (fun _ _ => flaky 2)
       (fun _ => Writes))
    fresh space_A
  = (Ok (false, "A", None), fresh, [ExportRequest "A"]).
Proof.
  apply (no_url_fails_without_download
           (Remote 0 (fun _ _ => Ok None) (fun _ => Ok (Some EmptyString)) (fun _ _ => flaky 2)
              (fun _ => Writes))
           fresh space_A ∅); [reflexivity|reflexivity|].
  right. right. reflexivity.
Defined.



(** ** More on discovery *)

Section paging.
Variable w : remote.
Variable inventory : list space.

(** The listing serves the inventory in pages of [limit] spaces. *)
Hypothesis pages : forall i : nat,
  get_all_spaces w (limit * Z.of_nat i) limit
  = Ok (Some (take 50 (drop (50 * i) inventory))).

Lemma fetch_from_page (fuel i : nat) (log : list event) :
  (50 * i <= length inventory)%nat ->
  (length inventory < 50 * (i + fuel))%nat ->
  exists log',
    fetch_all_spaces w fuel (limit * Z.of_nat i) (take (50 * i) inventory) log
    = Some (Ok inventory, log ++ log')
    /\ (50 * (i + length log') <= length inventory + 50)%nat
    /\ (length inventory < 50 * (i + length log'))%nat.
Proof.
  revert i log. induction fuel as [|fuel IH]; intros i log Hlo Hhi; [lia|].
  cbn [fetch_all_spaces]. rewrite pages.
  destruct (take 50 (drop (50 * i) inventory)) as [|sp page] eqn:Hpage.
  - assert (Hlen : (length inventory <= 50 * i)%nat).
    { apply (f_equal length) in Hpage. rewrite length_take, length_drop in Hpage.
      change (length (@nil space)) with 0%nat in Hpage. lia. }
    exists [ListRequest (limit * Z.of_nat i) limit].
    rewrite take_ge by done. split; [done|]. cbn. lia.
  - rewrite <- Hpage.
    assert (Happ : take (50 * i) inventory ++ take 50 (drop (50 * i) inventory)
                   = take (50 * (i + 1)) inventory).
    { replace (50 * (i + 1))%nat with (50 * i + 50)%nat by lia.
      by rewrite take_take_drop. }
    rewrite Happ.
    destruct (Z.ltb_spec (Z.of_nat (length (take 50 (drop (50 * i) inventory)))) limit)
      as [Hshort|Hfull]; rewrite length_take, length_drop in *; unfold limit in *.
    + exists [ListRequest (50 * Z.of_nat i) 50].
      rewrite take_ge by lia. split; [done|]. cbn. lia.
    + destruct (IH (i + 1)%nat (log ++ [ListRequest (50 * Z.of_nat i) 50]))
        as (log' & E & H1 & H2); [lia|lia|].
      replace (50 * Z.of_nat i + 50) with (50 * Z.of_nat (i + 1)) by lia.
      unfold limit in E. rewrite E.
      exists (ListRequest (50 * Z.of_nat i) 50 :: log').
      split; [by rewrite <- app_assoc|]. cbn [length]. lia.
Qed.
End paging.

(** X12. Against a listing that serves an inventory in pages of 50,
    discovery with enough fuel returns the whole inventory, in order,
    after one request more than there are full pages (a last request
    fetches the short, possibly empty, page). *)
Theorem discovery_reads_whole_inventory (w : remote) (inventory : list space) (fuel : nat) :
  (forall i : nat,
     get_all_spaces w (limit * Z.of_nat i) limit
     = Ok (Some (take 50 (drop (50 * i) inventory)))) ->
  (length inventory < 50 * fuel)%nat ->
  exists log,
    fetch_all_spaces w fuel 0 [] [] = Some (Ok inventory, log)
    /\ length log = S (length inventory / 50).
Proof.
  intros Hpages Hfuel.
  destruct (fetch_from_page w inventory Hpages fuel 0 []) as (log & E & H1 & H2);
    [lia|lia|].
  exists log. split; [exact E|].
  cbn [Nat.add] in *.
  assert (length inventory / 50 < length log)%nat by (apply Nat.Div0.div_lt_upper_bound; lia).
  assert (length log - 1 <= length inventory / 50)%nat
    by (apply Nat.div_le_lower_bound; lia).
  lia.
Qed.

Lemma discovery_reads_whole_inventory_witness :
  exists log,
    fetch_all_spaces (paged (many 120)) 3 0 [] [] = Some (Ok (many 120), log)
    /\ length log = 3%nat.
Proof.
  apply (discovery_reads_whole_inventory (paged (many 120)) (many 120) 3).
  - intros i. cbn [paged get_all_spaces]. unfold limit.
    replace (Z.to_nat (50 * Z.of_nat i)) with (50 * i)%nat by lia. reflexivity.
  - unfold many. rewrite length_map, length_seq. lia.
Defined.

(** X13. An exception of the listing call is not caught: the run makes
    no export request, downloads nothing and leaves the exporter as it
    is, and [main] ends with status 1, in both scripts. *)
Theorem listing_error_aborts_the_run (w : remote) (self : exporter) (fuel : nat) (e : exn)
    (args_spaces : option (list string)) (include_personal include_archived : bool) :
  get_all_spaces w 0 limit = Raise e ->
  export_all_spaces_sync w self (S fuel) include_personal include_archived args_spaces
  = Some (Raise e, self, [ListRequest 0 limit])
  /\ export_all_spaces_async w self (S fuel) include_personal include_archived args_spaces
     = Some (Raise e, self, [ListRequest 0 limit])
  /\ main_sync w self (S fuel) args_spaces include_personal include_archived = Some 1
  /\ main_async w self (S fuel) args_spaces include_personal include_archived = Some 1.
Proof.
  intros He.
  unfold main_sync, main_async, main, export_all_spaces_sync, export_all_spaces_async,
    export_all_spaces.
  cbn [fetch_all_spaces]. rewrite He. cbn.
  by destruct args_spaces as [[|k ks]|].
Qed.

Lemma listing_error_aborts_the_run_witness :
  main_async unlisted fresh 1 None false false = Some 1.
Proof.
  by apply (listing_error_aborts_the_run unlisted fresh 0 OtherError None false false).
Defined.


(** ** The summary and the order of completion *)

Lemma collect_sync_spec (done : completed) (n : nat) (fs : list string) :
  collect_sync done n fs
  = ((n + length (List.filter succeeded (map snd done)))%nat, fs ++ omap failure_sync done).
Proof.
  revert n fs. induction done as [|[sp [[[[] k] p]|e]] rest IH]; intros n fs;
    cbn [collect_sync map List.filter succeeded snd omap].
  - by rewrite app_nil_r, Nat.add_0_r.
  - rewrite IH. cbn. f_equal. lia.
  - rewrite IH. cbn. by rewrite <- app_assoc.
  - rewrite IH. cbn. by rewrite <- app_assoc.
Qed.

Lemma collect_async_spec (done : list (res outcome)) (n : nat) (fs : list string) :
  collect_async done n fs
  = ((n + length (List.filter succeeded done))%nat, fs ++ omap failure_async done).
Proof.
  revert n fs. induction done as [|[[[[] k] p]|e] rest IH]; intros n fs;
    cbn [collect_async List.filter succeeded omap].
  - by rewrite app_nil_r, Nat.add_0_r.
  - rewrite IH. cbn. f_equal. lia.
  - rewrite IH. cbn. by rewrite <- app_assoc.
  - rewrite IH. by cbn.
Qed.

Lemma filter_length_perm {A : Type} (f : A -> bool) (l1 l2 : list A) :
  l1 ≡ₚ l2 -> length (List.filter f l1) = length (List.filter f l2).
Proof.
  induction 1 as [|x l1 l2 _ IH|x y l|l1 l2 l3 _ IH1 _ IH2]; cbn.
  - done.
  - destruct (f x); cbn; by rewrite IH.
  - by destruct (f x), (f y).
  - by rewrite IH1.
Qed.

(** X14. The order in which the tasks complete does not change the
    number of successes, and changes the failure list by a permutation
    only: the list is in the order of completion.  This holds for the
    result loop of both exporters. *)
Theorem summary_up_to_completion_order (done done' : completed) :
  done ≡ₚ done' ->
  (collect_sync done 0 []).1 = (collect_sync done' 0 []).1
  /\ (collect_sync done 0 []).2 ≡ₚ (collect_sync done' 0 []).2
  /\ (collect_sync done 0 []).2 = omap failure_sync done
  /\ (collect_async (map snd done) 0 []).1 = (collect_async (map snd done') 0 []).1
  /\ (collect_async (map snd done) 0 []).2 ≡ₚ (collect_async (map snd done') 0 []).2
  /\ (collect_async (map snd done) 0 []).2 = omap failure_async (map snd done).
Proof.
  intros Hp. rewrite !collect_sync_spec, !collect_async_spec. cbn [fst snd app].
  assert (Hsnd : map snd done ≡ₚ map snd done') by by apply fmap_Permutation.
  repeat split.
  - f_equal. by apply filter_length_perm.
  - by apply omap_Permutation.
  - f_equal. by apply filter_length_perm.
  - by apply omap_Permutation.
Qed.

Lemma summary_up_to_completion_order_witness :
  (collect_sync [(space_A, Ok (false, "A", None)); (space_B, Raise TypeError)] 0 []).2
  ≡ₚ (collect_sync [(space_B, Raise TypeError); (space_A, Ok (false, "A", None))] 0 []).2.
Proof.
  apply (summary_up_to_completion_order
           [(space_A, Ok (false, "A", None)); (space_B, Raise TypeError)]
           [(space_B, Raise TypeError); (space_A, Ok (false, "A", None))]).
  apply Permutation_swap.
Defined.


(** ** The cache file across runs *)

Lemma export_space_sync_file (w : remote) (self self' : exporter) (sp : space)
    (r : res outcome) (log : list event) :
  export_space_sync w self sp = (r, self', log) ->
  (export_cache self' = export_cache self /\ cache_file self' = cache_file self)
  \/ (log <> [] /\ output_dir self' = output_dir self
      /\ cache_file self' = cache_file (_save_cache w self')).
Proof.
  unfold export_space_sync.
  destruct (export_cache self) as [|d] eqn:Hd; [intros [= <- <- <-]; by left|].
  destruct (d !! _); [intros [= <- <- <-]; by left|].
  destruct (get_space_export w (s_key sp)) as [u|]; [|intros [= <- <- <-]; by left].
  destruct (usable_url u) as [url|]; [|intros [= <- <- <-]; by left].
  destruct (http_get w url 0) as [|? ? chunks []]; try (intros [= <- <- <-]; by left).
  match goal with |- context [store w self ?t chunks] =>
    pose proof (store_cache w self t chunks) as (E1 & E2 & E3);
    destruct (store w self t chunks) as [[s1 ?] []] end; cbn [fst snd] in *.
  - intros [= <- <- <-]. right. split; [done|].
    rewrite save_cache_idem, save_cache_output_dir. by split.
  - intros [= <- <- <-]. left. split; congruence.
Qed.

Section loop_file.
Variable w : remote.
Variables space_key export_url : string.
Variable output_file : str.
Variable cache_key : string.
Variable d : gmap string str.

(** A loop that succeeds ends with [_save_cache]. *)
Lemma loop_success_file (left : nat) (retry_count : Z) (self self' : exporter)
    (log log' : list event) (k : string) (p : option str) :
  download_loop w space_key export_url output_file cache_key d left retry_count self log
  = (Ok (true, k, p), self', log') ->
  output_dir self' = output_dir self
  /\ cache_file self' = cache_file (_save_cache w self').
Proof.
  revert retry_count self log.
  induction left as [|left IH]; intros rc self log; [done|].
  destruct (Z.ltb_spec rc max_retries) as [Hlt|Hge].
  2:{ cbn [download_loop]. by destruct (Z.ltb_spec rc max_retries); [lia|]. }
  pose proof (after_attempt_cache w self output_file (http_get w export_url (Z.to_nat rc)))
    as (_ & _ & E3).
  rewrite loop_step by done. cbn zeta.
  destruct (write_fails w output_file _); [done|].
  destruct (transient _).
  - destruct (rc + 1 <? max_retries); [|done].
    intros H%IH. by rewrite E3 in H.
  - destruct (complete _); [|done].
    intros [= <- <- <- <-].
    rewrite save_cache_idem, save_cache_output_dir. by split.
Qed.
End loop_file.

Lemma export_space_async_file (w : remote) (self self' : exporter) (sp : space)
    (r : res outcome) (log : list event) :
  export_space_async w self sp = (r, self', log) ->
  (export_cache self' = export_cache self /\ cache_file self' = cache_file self)
  \/ (log <> [] /\ output_dir self' = output_dir self
      /\ cache_file self' = cache_file (_save_cache w self')).
Proof.
  unfold export_space_async.
  destruct (export_cache self) as [|d] eqn:Hd; [intros [= <- <- <-]; by left|].
  destruct (d !! _); [intros [= <- <- <-]; by left|].
  destruct (get_space_export w (s_key sp)) as [u|]; [|intros [= <- <- <-]; by left].
  destruct (usable_url u) as [url|]; [|intros [= <- <- <-]; by left].
  unfold download. intros E. destruct r as [[[[] k] p]|e].
  - right. pose proof (loop_log _ _ _ _ _ _ _ _ _ _ _ _ _ E) as (l & -> & _).
    split; [done|]. by apply loop_success_file in E.
  - apply loop_failed_cache in E as [E1 E2]. left. split; congruence.
  - by apply loop_outcome in E as [[? _]|?].
Qed.

(** X15. If the cache file agrees with the dictionary before a task and
    the cache file can be written whenever the task downloads, the file
    agrees with the dictionary after the task: an exporter created from
    the output directory after the task (a restart) starts with the
    dictionary the task left.  So a space exported with success is a cache
    hit, with the same path and without a network call, for an exporter
    restarted in the same bucket. *)
Theorem cache_survives_restart (w w' : remote) (self self' : exporter) (sp : space)
    (p : str) (log : list event) :
  _load_cache (cache_file self) = export_cache self ->
  (log <> [] -> disk w (cache_path self) = Writes) ->
  cache_key (s_key sp) (time_time w') = cache_key (s_key sp) (time_time w) ->
  let restarted := new_exporter (output_dir self') (cache_file self') (archives self') in
  (export_space_sync w self sp = (Ok (true, s_key sp, Some p), self', log) ->
   restarted = self'
   /\ export_space_sync w' restarted sp = (Ok (true, s_key sp, Some p), restarted, []))
  /\ (export_space_async w self sp = (Ok (true, s_key sp, Some p), self', log) ->
      restarted = self'
      /\ export_space_async w' restarted sp = (Ok (true, s_key sp, Some p), restarted, [])).
Proof.
  intros Hsync Hdisk Hk restarted.
  assert (Hre : _load_cache (cache_file self') = export_cache self' -> restarted = self').
  { intros H. subst restarted. unfold new_exporter. rewrite H. by destruct self'. }
  assert (Hfile :
    (export_cache self' = export_cache self /\ cache_file self' = cache_file self)
    \/ (log <> [] /\ output_dir self' = output_dir self
        /\ cache_file self' = cache_file (_save_cache w self')) ->
    _load_cache (cache_file self') = export_cache self').
  { intros [[-> ->]|(Hlog & Hdir & ->)]; [done|].
    unfold _save_cache, cache_path. rewrite Hdir.
    fold (cache_path self). by rewrite (Hdisk Hlog). }
  split; intros E.
  - assert (restarted = self') as ->.
    { apply Hre, Hfile. by apply (export_space_sync_file _ _ _ _ _ _ E). }
    split; [done|].
    by apply (rerun_in_same_bucket_hits_cache w w' self self' sp p log).
  - assert (restarted = self') as ->.
    { apply Hre, Hfile. by apply (export_space_async_file _ _ _ _ _ _ E). }
    split; [done|].
    by apply (rerun_in_same_bucket_hits_cache w w' self self' sp p log).
Qed.

Lemma cache_survives_restart_witness :
  let self' := (export_space_async (world flaky) fresh space_A).1.2 in
  export_space_async (world half)
    (new_exporter (output_dir self') (cache_file self') (archives self')) space_A
  = (Ok (true, "A", Some (of_string "out/A_Alpha.html.zip")),
     new_exporter (output_dir self') (cache_file self') (archives self'), []).
Proof.
  intros self'.
  destruct (cache_survives_restart (world flaky) (world half) fresh self' space_A
              (of_string "out/A_Alpha.html.zip")
              [ExportRequest "A"; Get "https://wiki/export/A"; Sleep 10;
               Get "https://wiki/export/A"; Sleep 20; Get "https://wiki/export/A"]
              eq_refl (fun _ => eq_refl) eq_refl) as [_ H].
  destruct (H eq_refl) as [_ E]. exact E.
Defined.

(** ** The exit status *)

(** X16. Once discovery has returned, [main] of the thread-pool script
    ends with status 0 exactly when every selected space was exported
    with success, and with status 1 otherwise; the selection is by the
    allow-list if [--spaces] names a key, by the two flags otherwise. *)
Theorem thread_pool_exit_status (w : remote) (self : exporter) (fuel : nat)
    (all_spaces : list space) (log : list event) (args_spaces : option (list string))
    (include_personal include_archived : bool) :
  fetch_all_spaces w fuel 0 [] [] = Some (Ok all_spaces, log) ->
  let '(flags, specific_spaces) :=
    match args_spaces with
    | Some (_ :: _) => ((false, false), args_spaces)
    | _ => ((include_personal, include_archived), None)
    end in
  let selected := select_spaces all_spaces flags.1 flags.2 specific_spaces in
  let successes :=
    (export_selected_sync w self all_spaces flags.1 flags.2 specific_spaces).1.1.1 in
  (successes = length selected ->
   main_sync w self fuel args_spaces include_personal include_archived = Some 0)
  /\ (successes <> length selected ->
      main_sync w self fuel args_spaces include_personal include_archived = Some 1).
Proof.
  intros Hfetch.
  assert (Hgen : forall ip ia specific,
    let selected := select_spaces all_spaces ip ia specific in
    let successes := (export_selected_sync w self all_spaces ip ia specific).1.1.1 in
    let status :=
      match export_all_spaces export_selected_sync w self fuel ip ia specific with
      | None => None
      | Some (Raise _, _, _) => Some 1
      | Some (Ok (_, []), _, _) => Some 0
      | Some (Ok (_, _ :: _), _, _) => Some 1
      end in
    (successes = length selected -> status = Some 0)
    /\ (successes <> length selected -> status = Some 1)).
  { intros ip ia specific selected successes status.
    pose proof (thread_pool_summary_is_complete w self all_spaces ip ia specific) as Htotal.
    cbn zeta in Htotal. fold selected successes in Htotal.
    subst status. unfold export_all_spaces. rewrite Hfetch.
    subst successes.
    destruct (export_selected_sync w self all_spaces ip ia specific)
      as [[[n fs] s'] l']. cbn [fst snd] in *.
    destruct fs as [|k fs]; cbn [length] in Htotal; split; intros H; try done; lia. }
  unfold main_sync, main.
  destruct args_spaces as [[|k ks]|]; cbn [fst snd]; apply Hgen.
Qed.

Lemma thread_pool_exit_status_witness :
  main_sync (world (fun _ => Refused ClientError)) fresh 1 (Some ["A"; "B"]) true true
  = Some 1.
Proof.
  apply (thread_pool_exit_status (world (fun _ => Refused ClientError)) fresh 1
           [space_A; space_B; space_C] [ListRequest 0 50] (Some ["A"; "B"]) true true eq_refl).
  by vm_compute.
Defined.


(** ** Running the same export twice *)

Section second_run.
Variables task task' : exporter -> space -> res outcome * exporter * list event.
Variable fingerprint : space -> string.

(** What the export tasks of a first and of a second run in the same
    bucket satisfy. *)
Hypothesis first_run : forall self sp r self' log d,
  task self sp = (r, self', log) ->
  export_cache self = PyDict d ->
  exists d', export_cache self' = PyDict d' /\ d ⊆ d'
    /\ exists b k p, r = Ok (b, k, p) /\ k = s_key sp
         /\ (b = true -> exists path, p = Some path /\ d' !! fingerprint sp = Some path).
Hypothesis second_run : forall self sp d path,
  export_cache self = PyDict d ->
  d !! fingerprint sp = Some path ->
  task' self sp = (Ok (true, s_key sp, Some path), self, []).

Lemma run_tasks_fills_cache (self self' : exporter) (spaces : list space)
    (done : completed) (log : list event) (d : gmap string str) :
  run_tasks task self spaces = (done, self', log) ->
  export_cache self = PyDict d ->
  exists d', export_cache self' = PyDict d' /\ d ⊆ d'
    /\ Forall (fun c => exists b p, c.2 = Ok (b, s_key c.1, p)
                 /\ (b = true -> exists path, p = Some path
                                   /\ d' !! fingerprint c.1 = Some path)) done.
Proof.
  revert self done log d.
  induction spaces as [|sp rest IH]; intros self done log d; cbn [run_tasks].
  - intros [= <- <- <-] Hd. by exists d.
  - destruct (task self sp) as [[r s1] l1] eqn:Et.
    destruct (run_tasks task s1 rest) as [[done' s2] l2] eqn:Er.
    intros [= <- <- <-] Hd.
    destruct (first_run _ _ _ _ _ _ Et Hd) as (d1 & Hd1 & Hsub1 & b & k & p & -> & -> & Hb).
    destruct (IH _ _ _ _ Er Hd1) as (d2 & Hd2 & Hsub2 & Hall).
    exists d2. split; [done|]. split; [by etrans|].
    apply Forall_cons. split; [|done]. cbn. exists b, p. split; [done|].
    intros Hbt. destruct (Hb Hbt) as (path & -> & Hp). exists path. split; [done|].
    by eapply lookup_weaken.
Qed.

Lemma run_tasks_all_cached (self : exporter) (done : completed) (d : gmap string str) :
  export_cache self = PyDict d ->
  Forall (fun c => exists p, c.2 = Ok (true, s_key c.1, Some p)
               /\ d !! fingerprint c.1 = Some p) done ->
  run_tasks task' self (map fst done) = (done, self, []).
Proof.
  intros Hd. induction 1 as [|[sp r] rest (p & Hr & Hp) _ IH]; cbn [run_tasks map fst]; [done|].
  cbn in Hr, Hp. rewrite (second_run self sp d p Hd Hp), IH. by rewrite Hr.
Qed.

Lemma run_tasks_spaces (self self' : exporter) (spaces : list space)
    (done : completed) (log : list event) :
  run_tasks task self spaces = (done, self', log) -> map fst done = spaces.
Proof.
  revert self done log.
  induction spaces as [|sp rest IH]; intros self done log; cbn [run_tasks].
  - by intros [= <- <- <-].
  - destruct (task self sp) as [[r s1] l1].
    destruct (run_tasks task s1 rest) as [[dn s2] l2] eqn:E.
    intros [= <- <- <-]. cbn. by rewrite (IH _ _ _ E).
Qed.

(** After a run in which every task succeeded, running the tasks again
    gives the same results and makes no call. *)
Lemma second_run_is_free (self self' : exporter) (spaces : list space)
    (done : completed) (log : list event) (d : gmap string str) :
  export_cache self = PyDict d ->
  run_tasks task self spaces = (done, self', log) ->
  Forall (fun c => succeeded c.2 = true) done ->
  run_tasks task' self' spaces = (done, self', []).
Proof.
  intros Hd Hrun Hall.
  pose proof (run_tasks_spaces _ _ _ _ _ Hrun) as Hfst.
  destruct (run_tasks_fills_cache _ _ _ _ _ _ Hrun Hd) as (d' & Hd' & _ & Hfill).
  rewrite <- Hfst. apply run_tasks_all_cached with d'; [done|].
  rewrite Forall_forall in *. intros c Hc.
  destruct (Hfill c Hc) as (b & p & Hr & Hb). specialize (Hall c Hc).
  destruct c as [sp r]. cbn [fst snd] in *. subst r. destruct b; [|done].
  destruct (Hb eq_refl) as (path & -> & Hp). by exists path.
Qed.
End second_run.

Lemma export_space_sync_first_run (w : remote) :
  forall self sp r self' log d,
    export_space_sync w self sp = (r, self', log) ->
    export_cache self = PyDict d ->
    exists d', export_cache self' = PyDict d' /\ d ⊆ d'
      /\ exists b k p, r = Ok (b, k, p) /\ k = s_key sp
           /\ (b = true -> exists path, p = Some path
                 /\ d' !! cache_key (s_key sp) (time_time w) = Some path).
Proof.
  intros self sp r self' log d E Hd. unfold export_space_sync in E. rewrite Hd in E.
  assert (Hfail : forall s, export_cache s = PyDict d ->
    exists d', export_cache s = PyDict d' /\ d ⊆ d'
      /\ exists b k p, Ok (failed (s_key sp)) = Ok (b, k, p) /\ k = s_key sp
           /\ (b = true -> exists path : str, p = Some path
                 /\ d' !! cache_key (s_key sp) (time_time w) = Some path)).
  { intros s Hs. exists d. repeat split; [done..|]. eexists _, _, _. by repeat split. }
  destruct (d !! _) as [path|] eqn:Hmiss.
  { injection E as <- <- <-. exists d. repeat split; [done..|].
    eexists _, _, _. repeat split; eauto. }
  destruct (get_space_export w (s_key sp)) as [u|]; [|injection E as <- <- <-; by apply Hfail].
  destruct (usable_url u) as [url|]; [|injection E as <- <- <-; by apply Hfail].
  destruct (http_get w url 0) as [|? ? chunks []];
    try (injection E as <- <- <-; by apply Hfail).
  match type of E with context [store w self ?t chunks] =>
    pose proof (store_cache w self t chunks) as (E1 & _);
    destruct (store w self t chunks) as [[s1 ?] []] end; cbn [fst snd] in *;
    injection E as <- <- <-; [|apply Hfail; congruence].
  eexists. split; [by rewrite save_cache_export_cache|]. split; [by apply insert_subseteq|].
  eexists _, _, _. repeat split. intros _. eexists. split; [done|]. apply lookup_insert_eq.
Qed.

Lemma export_space_async_first_run (w : remote) :
  forall self sp r self' log d,
    export_space_async w self sp = (r, self', log) ->
    export_cache self = PyDict d ->
    exists d', export_cache self' = PyDict d' /\ d ⊆ d'
      /\ exists b k p, r = Ok (b, k, p) /\ k = s_key sp
           /\ (b = true -> exists path, p = Some path
                 /\ d' !! cache_key (s_key sp) (time_time w) = Some path).
Proof.
  intros self sp r self' log d E Hd. unfold export_space_async in E. rewrite Hd in E.
  destruct (d !! _) as [path|] eqn:Hmiss.
  { injection E as <- <- <-. exists d. repeat split; [done..|].
    eexists _, _, _. repeat split; eauto. }
  destruct (get_space_export w (s_key sp)) as [u|].
  2:{ injection E as <- <- <-. exists d. repeat split; [done..|].
      eexists _, _, _. by repeat split. }
  destruct (usable_url u) as [url|].
  2:{ injection E as <- <- <-. exists d. repeat split; [done..|].
      eexists _, _, _. by repeat split. }
  unfold download in E. destruct r as [[[[] k] p]|e].
  - pose proof (loop_outcome _ _ _ _ _ _ _ _ _ _ _ _ _ E) as [[[= -> ->] _]|[=]].
    apply loop_success_state in E as (_ & Hc & _).
    eexists. split; [exact Hc|]. split; [by apply insert_subseteq|].
    eexists _, _, _. repeat split. intros _. eexists. split; [done|]. apply lookup_insert_eq.
  - pose proof (loop_outcome _ _ _ _ _ _ _ _ _ _ _ _ _ E) as [[[=] _]|[= -> ->]].
    apply loop_failed_cache in E as [Hc _]. exists d. split; [congruence|]. split; [done|].
    eexists _, _, _. by repeat split.
  - by apply loop_outcome in E as [[? _]|?].
Qed.

(** X17. After a run in which no space failed, a second run over the
    same inventory in the same bucket returns the same summary, makes no
    export request and no download, and leaves the exporter as it is, in
    both exporters. *)
Theorem second_run_makes_no_call (w w' : remote) (self self' : exporter)
    (all_spaces : list space) (include_personal include_archived : bool)
    (specific_spaces : option (list string)) (n : nat) (log : list event)
    (d : gmap string str) :
  export_cache self = PyDict d ->
  (forall k, cache_key k (time_time w') = cache_key k (time_time w)) ->
  (export_selected_sync w self all_spaces include_personal include_archived specific_spaces
   = ((n, []), self', log) ->
   export_selected_sync w' self' all_spaces include_personal include_archived specific_spaces
   = ((n, []), self', []))
  /\ (export_selected_async w self all_spaces include_personal include_archived specific_spaces
      = ((n, []), self', log) ->
      export_selected_async w' self' all_spaces include_personal include_archived
        specific_spaces
      = ((n, []), self', [])).
Proof.
  intros Hd Hk. split.
  - unfold export_selected_sync.
    destruct (select_spaces _ _ _ _) as [|sp rest]; [by intros [= <- <- <-]|].
    destruct (run_tasks (export_space_sync w) self (sp :: rest)) as [[done s1] l1] eqn:Er.
    intros [= Hsum <- <-].
    rewrite (second_run_is_free (export_space_sync w) (export_space_sync w')
               (fun sp => cache_key (s_key sp) (time_time w))
               (export_space_sync_first_run w)) with (done := done) (log := l1) (d := d)
               (self := self); try done.
    + by rewrite Hsum.
    + intros s0 sp0 d0 path H0 Hp. apply export_space_sync_hit with d0; [done|]. by rewrite Hk.
    + rewrite collect_sync_spec in Hsum. injection Hsum as _ Hf. cbn in Hf.
      clear -Hf. induction done as [|[sp0 [[[[] k] p]|e]] rest' IH]; try done.
      apply Forall_cons. split; [done|]. by apply IH.
  - unfold export_selected_async.
    destruct (select_spaces _ _ _ _) as [|sp rest]; [by intros [= <- <- <-]|].
    destruct (run_tasks (export_space_async w) self (sp :: rest)) as [[done s1] l1] eqn:Er.
    intros [= Hsum <- <-].
    rewrite (second_run_is_free (export_space_async w) (export_space_async w')
               (fun sp => cache_key (s_key sp) (time_time w))
               (export_space_async_first_run w)) with (done := done) (log := l1) (d := d)
               (self := self); try done.
    + by rewrite Hsum.
    + intros s0 sp0 d0 path H0 Hp. apply export_space_async_hit with d0; [done|]. by rewrite Hk.
    + rewrite collect_async_spec in Hsum. injection Hsum as _ Hf. cbn in Hf.
      destruct (run_tasks_fills_cache (export_space_async w)
                  (fun sp => cache_key (s_key sp) (time_time w))
                  (export_space_async_first_run w) _ _ _ _ _ _ Er Hd) as (d1 & _ & _ & Hok).
      clear -Hf Hok. induction done as [|[sp0 r] rest' IH]; [done|].
      apply Forall_cons in Hok as [(b & p & Hr & _) Hok']. cbn [fst snd] in Hr. subst r.
      destruct b; [|done]. apply Forall_cons. split; [done|]. by apply IH.
Qed.

Lemma second_run_makes_no_call_witness :
  let first := export_selected_async (world (fun _ => flaky 2)) fresh
                 [space_A; space_B; space_C] true true None in
  first.1.1 = (3%nat, [])
  /\ export_selected_async (world half) first.1.2 [space_A; space_B; space_C] true true None
     = ((3%nat, []), first.1.2, []).
Proof.
  intros first. split; [reflexivity|].
  apply (second_run_makes_no_call (world (fun _ => flaky 2)) (world half) fresh first.1.2
           [space_A; space_B; space_C] true true None 3 first.2 ∅ eq_refl).
  - reflexivity.
  - reflexivity.
Defined.


(** ** The summary of the asyncio exporter with a usable cache *)

(** X18. When the cache is a dictionary, no task of the asyncio
    exporter raises, and its summary accounts for every selected space:
    the successes and the failures add up to their number. *)
Theorem asyncio_summary_complete_with_dictionary (w : remote) (self : exporter)
    (all_spaces : list space) (include_personal include_archived : bool)
    (specific_spaces : option (list string)) (d : gmap string str) :
  export_cache self = PyDict d ->
  let s :=
    (export_selected_async w self all_spaces include_personal include_archived
       specific_spaces).1.1 in
  (s.1 + length s.2
   = length (select_spaces all_spaces include_personal include_archived specific_spaces))%nat.
Proof.
  intros Hd. cbn zeta. rewrite asyncio_summary_counts_returned.
  destruct (run_tasks (export_space_async w) self
              (select_spaces all_spaces include_personal include_archived specific_spaces))
    as [[done s1] l1] eqn:Er. cbn [fst snd].
  rewrite <- (run_tasks_spaces _ _ _ _ _ _ Er), !length_map.
  destruct (run_tasks_fills_cache (export_space_async w)
              (fun sp => cache_key (s_key sp) (time_time w))
              (export_space_async_first_run w) _ _ _ _ _ _ Er Hd) as (d1 & _ & _ & Hok).
  clear -Hok. induction done as [|[sp r] rest IH]; [done|].
  apply Forall_cons in Hok as [(b & p & Hr & _) Hok']. cbn [fst snd] in Hr. subst r.
  cbn. by rewrite <- IH.
Qed.

Lemma asyncio_summary_complete_with_dictionary_witness :
  let s := (export_selected_async (world half) fresh [space_A; space_B; space_C]
              true false None).1.1 in
  (s.1 + length s.2 = length (select_spaces [space_A; space_B; space_C] true false None))%nat.
Proof.
  apply (asyncio_summary_complete_with_dictionary (world half) fresh
           [space_A; space_B; space_C] true false None ∅).
  reflexivity.
Defined.

(** ** A missing or unreadable cache file *)

(** X19. With a cache file that is missing or cannot be parsed the
    exporter starts with an empty cache: no task raises, none is a cache
    hit, and every task begins with an export request, in both
    exporters. *)
Theorem unreadable_cache_is_empty (w : remote) (dir : str -> str) (on_disk : file_content)
    (files : gmap str bytes) (sp : space) :
  on_disk = Missing \/ on_disk = Corrupt ->
  let self := new_exporter dir on_disk files in
  export_cache self = PyDict ∅
  /\ (exists o s' l, export_space_sync w self sp = (Ok o, s', ExportRequest (s_key sp) :: l))
  /\ (exists o s' l, export_space_async w self sp = (Ok o, s', ExportRequest (s_key sp) :: l)).
Proof.
  intros Hdisk self.
  assert (Hc : export_cache self = PyDict ∅) by by destruct Hdisk as [-> | ->].
  split; [done|]. split.
  - unfold export_space_sync. rewrite Hc, lookup_empty.
    repeat case_match; by eexists _, _, _.
  - unfold export_space_async. rewrite Hc, lookup_empty.
    repeat case_match; try by eexists _, _, _.
    unfold download.
    destruct (download_loop _ _ _ _ _ _ _ _ _ _) as [[r s'] l] eqn:E.
    pose proof (loop_log _ _ _ _ _ _ _ _ _ _ _ _ _ E) as (l' & -> & _).
    apply loop_outcome in E as [[-> _]| ->]; by eexists _, _, _.
Qed.

Lemma unreadable_cache_is_empty_witness :
  export_cache (new_exporter (in_dir "out") Corrupt ∅) = PyDict ∅.
Proof.
  apply (unreadable_cache_is_empty (world flaky) (in_dir "out") Corrupt ∅ space_A). by right.
Defined.

